(** * rec.py: collaborative-filtering restaurant recommender

    A shallow embedding of the computational core of [rec.py]
    (lines 61-102): the construction of the user-item matrix with pandas,
    the two cosine-similarity matrices, and the two recommendation
    functions.

    Numbers.  The source computes in binary64 floating point.  Here the
    weights of the matrix are exact rationals ([Qc], canonical fractions
    with Leibniz equality) and a similarity is an exact real number of the
    form [p / sqrt q], kept as the pair [(p, q)] (type [Surd]) so that it
    can be compared and evaluated; [Surd2R] gives its value in [R].
    Rounding is not modelled there.  Module [F64] repeats the two
    similarity matrices on binary64 values, with the rounding of every
    operation.

    Library calls (pandas, numpy, scikit-learn) are modelled by functions
    of the same name that follow the library's algorithm on the data that
    reaches them. *)

From Stdlib Require Import Floats Uint63.
From Stdlib Require Import List Bool Arith ZArith Lia String Ascii.
From Stdlib Require Import QArith Qcanon Permutation Sorted.
From Stdlib Require Import Reals Qreals Lra Psatz.
Import ListNotations.

Local Close Scope R_scope.
Local Close Scope Qc_scope.
Local Close Scope Q_scope.
Local Open Scope nat_scope.
Local Open Scope string_scope.
Local Open Scope list_scope.

(** ** Exceptions *)

Inductive exn := KeyError | IndexError | ValueError.

Inductive result (A : Type) : Type :=
| Ok (a : A)
| Raise (e : exn).
Arguments Ok {A} a.
Arguments Raise {A} e.

Definition bind {A B} (m : result A) (k : A -> result B) : result B :=
  match m with
  | Ok a => k a
  | Raise e => Raise e
  end.

Notation "x <- m ;; k" := (bind m (fun x => k))
  (at level 61, m at next level, right associativity).

Fixpoint mapM {A B} (f : A -> result B) (l : list A) : result (list B) :=
  match l with
  | [] => Ok []
  | a :: l' => b <- f a ;; bs <- mapM f l' ;; Ok (b :: bs)
  end.

(** ** Python sequences *)

Module Py.

(** Clamp a slice bound the way Python does for a sequence of length
    [len]: a negative bound counts from the end. *)
Definition bound (len : nat) (i : Z) : nat :=
  if (i <? 0)%Z then Z.to_nat (Z.max 0 (Z.of_nat len + i))
  else Nat.min (Z.to_nat i) len.

(** [l[start:stop]] *)
Definition slice {A} (start stop : Z) (l : list A) : list A :=
  let a := bound (List.length l) start in
  let b := bound (List.length l) stop in
  firstn (b - a) (skipn a l).

(** [l[:stop]] *)
Definition slice_to {A} (stop : Z) (l : list A) : list A :=
  firstn (bound (List.length l) stop) l.

(** [l[::-1]] *)
Definition reversed {A} (l : list A) : list A := rev l.

(** [s.split(sep)] for a one-character separator: never returns the
    empty list; [''.split(',')] is [['']]. *)
Fixpoint split (sep : ascii) (s : string) : list string :=
  match s with
  | EmptyString => [EmptyString]
  | String c s' =>
      if Ascii.eqb c sep then EmptyString :: split sep s'
      else match split sep s' with
           | [] => [String c EmptyString]
           | w :: ws => String c w :: ws
           end
  end.

(** Position of the first occurrence of a label, [None] if absent. *)
Fixpoint find_index (x : string) (l : list string) : option nat :=
  match l with
  | [] => None
  | y :: l' => if String.eqb x y then Some 0%nat
               else option_map S (find_index x l')
  end.

Definition mem (x : string) (l : list string) : bool :=
  existsb (String.eqb x) l.

End Py.

(** ** Sorting

    A stable insertion sort.  numpy's default [argsort] (introsort) does
    not promise an order among equal keys; on short arrays it runs an
    insertion sort, which leaves equal keys in index order, and that is
    the rule taken here. *)

Section Sort.
Context {A : Type} (leb : A -> A -> bool).

Fixpoint insert (x : A) (l : list A) : list A :=
  match l with
  | [] => [x]
  | y :: l' => if leb x y then x :: l else y :: insert x l'
  end.

Definition sort (l : list A) : list A := fold_right insert [] l.
End Sort.

(** ** Numbers *)

(** An integer as a float. *)
Definition Qc_of_Z (z : Z) : Qc := Q2Qc (inject_Z z).

Definition Zsum (l : list Z) : Z := fold_right Z.add 0%Z l.

Definition Qcsum (l : list Qc) : Qc := fold_right Qcplus 0%Qc l.

(** ** pandas objects *)

(** A row of [df], the table returned by [get_notion_data].  The fields
    are the columns 店名, タグ, URL, 紹介者 and 店舗最寄り駅.  The index
    of [df] is the row's position (a RangeIndex). *)
Record Row := mkRow {
  shop_name : string;
  tags : string;
  url : string;
  referrer : string;
  station : string
}.

(** A Series with string labels: labels and values, in order. *)
Definition Series (V : Type) : Type := list (string * V).

(** A DataFrame with string row labels and string column labels. *)
Record DataFrame (V : Type) := mkFrame {
  index : list string;
  columns : list string;
  values : list (list V)
}.
Arguments mkFrame {V} _ _ _.
Arguments index {V} _.
Arguments columns {V} _.
Arguments values {V} _.

(** A row of [user_restaurant_pairs]; its index label after
    [reset_index()] is its position.  [user] is [None] for NaN. *)
Record PairRow := mkPair {
  restaurant_index : nat;
  user : option string;
  rating : Z
}.

Module Pd.

(** [Series.explode()]: one row per list element, labelled by the
    label of the row it came from; an empty list gives one NaN row. *)
Definition explode (col : list (list string)) : list (nat * option string) :=
  List.concat
    (map (fun il : nat * list string =>
            match snd il with
            | [] => [(fst il, None)]
            | us => map (fun u => (fst il, Some u)) us
            end)
         (combine (seq 0 (List.length col)) col)).

(** [pd.unique]: first occurrences, in order of appearance. *)
Fixpoint unique (l : list string) : list string :=
  match l with
  | [] => []
  | x :: l' => x :: filter (fun y => negb (String.eqb x y)) (unique l')
  end.

(** [Series.reindex(RangeIndex(n))] of a Series that itself has a
    RangeIndex: label [k] gets the value at position [k], NaN when
    there is none. *)
Definition reindex (s : list string) (n : nat) : list (option string) :=
  map (nth_error s) (seq 0 n).

(** The grouping keys and the aggregated value of every row that
    [groupby] keeps: rows with a NaN key are dropped. *)
Fixpoint dropna_keys (rows : list (option string * option string * Z))
  : list (string * string * Z) :=
  match rows with
  | [] => []
  | (Some u, Some c, v) :: rows' => (u, c, v) :: dropna_keys rows'
  | _ :: rows' => dropna_keys rows'
  end.

(** [aggfunc='sum'] over the group with keys [(u, c)]; an absent group
    is filled with [fill_value=0]. *)
Definition agg_sum (g : list (string * string * Z)) (u c : string) : Z :=
  Zsum
    (map snd
       (filter (fun r => String.eqb (fst (fst r)) u
                         && String.eqb (snd (fst r)) c) g)).

(** The rows that [pairs.groupby(['user', key])] keeps, with their two
    keys and their rating, where [key] is a Series with a RangeIndex.
    A Series given as a grouping key is aligned with the frame on the
    index labels (pandas: "the Series' values are first aligned"): it is
    reindexed to the frame's index, here the labels [0..len(pairs)-1]
    left by [reset_index()], and is not looked up through any column of
    the frame such as [restaurant_index]. *)
Definition groups (pairs : list PairRow) (key : list string)
  : list (string * string * Z) :=
  dropna_keys (combine (combine (map user pairs)
                                (reindex key (List.length pairs)))
                       (map rating pairs)).

(** [pairs.pivot_table(values='rating', index='user', columns=key,
    aggfunc='sum', fill_value=0)]: the group keys are made unique and
    sorted, and every cell holds the sum of its group. *)
Definition pivot_table (pairs : list PairRow) (key : list string)
  : DataFrame Z :=
  let g := groups pairs key in
  let idx := sort String.leb (unique (map (fun r => fst (fst r)) g)) in
  let cols := sort String.leb (unique (map (fun r => snd (fst r)) g)) in
  mkFrame idx cols (map (fun u => map (fun c => agg_sum g u c) cols) idx).

(** [frame.sum(axis=1)] *)
Definition sum_axis1 (f : DataFrame Z) : list Z :=
  map Zsum (values f).

(** [frame.div(s, axis=0)]: true division of every row by its entry
    of [s].  Division by zero does not raise: it gives NaN or an
    infinity, both [None] here. *)
Definition div (f : DataFrame Z) (s : list Z) : DataFrame (option Qc) :=
  mkFrame (index f) (columns f)
    (map (fun rs : list Z * Z =>
            map (fun x => if (snd rs =? 0)%Z then None
                          else Some (Qc_of_Z x / Qc_of_Z (snd rs))%Qc)
                (fst rs))
         (combine (values f) s)).

(** [frame.T] on the values: one row per column label. *)
Definition transpose {V} (ncols : nat) (rows : list (list V)) : list (list V) :=
  map (fun j => List.concat (map (fun r => match nth_error r j with
                                      | Some x => [x]
                                      | None => []
                                      end) rows))
      (seq 0 ncols).

(** [index.get_loc(label)] on a unique index. *)
Definition get_loc (x : string) (l : list string) : result nat :=
  match Py.find_index x l with
  | Some i => Ok i
  | None => Raise KeyError
  end.

(** Positional access: [IndexError] when out of bounds. *)
Definition at_pos {V} (l : list V) (i : nat) : result V :=
  match nth_error l i with
  | Some x => Ok x
  | None => Raise IndexError
  end.

(** [frame.iloc[positions]] on the values, and [index[positions]]. *)
Definition take {V} (l : list V) (positions : list nat) : result (list V) :=
  mapM (at_pos l) positions.

(** [frame.loc[label]]: the row as a Series labelled by the columns. *)
Definition loc {V} (f : DataFrame V) (x : string) : result (Series V) :=
  i <- get_loc x (index f) ;;
  r <- at_pos (values f) i ;;
  Ok (combine (columns f) r).

(** [frame.mean()]: the mean of every column; NaN ([None]) for a frame
    without rows. *)
Definition mean (cols : list string) (rows : list (list Qc))
  : Series (option Qc) :=
  map (fun jc : nat * string =>
         (snd jc,
          match rows with
          | [] => None
          | _ => Some (Qcsum (map (fun r => nth (fst jc) r 0%Qc) rows)
                       / Qc_of_Z (Z.of_nat (List.length rows)))%Qc
          end))
      (combine (seq 0 (List.length cols)) cols).

End Pd.

(** ** Similarities *)

(** The real number [num / sqrt rad], with [rad > 0]. *)
Record Surd := mkSurd {
  num : Qc;
  rad : Qc
}.

(** A vector divided by a norm: [coords / sqrt scale2]. *)
Record Scaled := mkScaled {
  coords : list Qc;
  scale2 : Qc
}.

Module Sk.

(** [check_array]: the input of a pairwise metric must have at least
    one row and one column and only finite entries. *)
Definition finite (x : option Qc) : result Qc :=
  match x with
  | Some q => Ok q
  | None => Raise ValueError
  end.

Definition check_array (X : list (list (option Qc)))
  : result (list (list Qc)) :=
  match X with
  | [] => Raise ValueError
  | [] :: _ => Raise ValueError
  | _ => mapM (mapM finite) X
  end.

Definition dot (a b : list Qc) : Qc :=
  Qcsum (map (fun xy => fst xy * snd xy)%Qc (combine a b)).

(** [row_norms(X, squared=True)] *)
Definition row_norms_squared (X : list (list Qc)) : list Qc :=
  map (fun x => dot x x) X.

(** [_handle_zeros_in_scale]: a zero norm is replaced by 1.  It acts
    here on the squared norm, which is zero exactly when the norm is. *)
Definition handle_zeros_in_scale (s : Qc) : Qc :=
  if Qc_eq_bool s 0%Qc then 1%Qc else s.

(** [normalize(X)]: every row divided by its Euclidean norm. *)
Definition normalize (X : list (list Qc)) : list Scaled :=
  map (fun xs : list Qc * Qc =>
         mkScaled (fst xs) (handle_zeros_in_scale (snd xs)))
      (combine X (row_norms_squared X)).

(** The product of two normalized rows. *)
Definition scaled_dot (a b : Scaled) : Surd :=
  mkSurd (dot (coords a) (coords b)) (scale2 a * scale2 b)%Qc.

(** [N @ N.T] *)
Definition gram (N : list Scaled) : list (list Surd) :=
  map (fun a => map (fun b => scaled_dot a b) N) N.

(** [cosine_similarity(X)]:
    [X_normalized = normalize(X); K = X_normalized @ X_normalized.T]. *)
Definition cosine_similarity (X : list (list (option Qc)))
  : result (list (list Surd)) :=
  X' <- check_array X ;;
  let X_normalized := normalize X' in
  Ok (gram X_normalized).

End Sk.

Module Np.

(** The image of [num / sqrt rad] under the increasing map
    [x |-> sign x * x^2]; two similarities compare as their images. *)
Definition signed_square (s : Surd) : Qc :=
  if Qle_bool 0 (num s) then (num s * num s / rad s)%Qc
  else (- (num s * num s / rad s))%Qc.

Definition Surd_leb (s t : Surd) : bool :=
  Qle_bool (signed_square s) (signed_square t).

(** [a.argsort()]: the positions of [a] in ascending order of value. *)
Definition argsort {V} (leb : V -> V -> bool) (a : list V) : list nat :=
  map fst
    (sort (fun p q : nat * V => leb (snd p) (snd q))
          (combine (seq 0 (List.length a)) a)).

End Np.

Module PdSort.

Definition Qc_leb (x y : Qc) : bool := Qle_bool x y.

(** [nargsort(items, ascending=False, na_position='last')]: the
    positions of the non-NaN values are reversed, sorted ascending and
    reversed again; the positions of the NaN values come last. *)
Definition nargsort_descending (items : list (option Qc)) : list nat :=
  let tagged := combine (seq 0 (List.length items)) items in
  let non_nan := flat_map (fun iv : nat * option Qc =>
                             match snd iv with
                             | Some q => [(fst iv, q)]
                             | None => []
                             end) tagged in
  let nan_idx := flat_map (fun iv : nat * option Qc =>
                             match snd iv with
                             | Some _ => []
                             | None => [fst iv]
                             end) tagged in
  let non_nans := Py.reversed (map snd non_nan) in
  let non_nan_idx := Py.reversed (map fst non_nan) in
  let indexer := map (fun k => nth k non_nan_idx 0%nat)
                     (Np.argsort Qc_leb non_nans) in
  Py.reversed indexer ++ nan_idx.

(** [series.sort_values(ascending=False)] *)
Definition sort_values_descending (s : Series (option Qc))
  : Series (option Qc) :=
  flat_map (fun k => match nth_error s k with
                     | Some kv => [kv]
                     | None => []
                     end)
           (nargsort_descending (map snd s)).

(** [this.difference(other)] with the default [sort=None]: the labels
    of [this] that are not in [other], made unique and sorted; when
    [other] is empty the labels of [this] are returned unsorted. *)
Definition difference (this other : list string) : list string :=
  match other with
  | [] => Pd.unique this
  | _ => sort String.leb
           (Pd.unique (filter (fun x => negb (Py.mem x other)) this))
  end.

(** [series[labels]] on a Series with unique labels: the entries of
    the given labels, in the order of [labels]; [KeyError] when a label
    is missing. *)
Definition getitem {V} (s : Series V) (labels : list string)
  : result (Series V) :=
  mapM (fun l => match find (fun kv : string * V => String.eqb (fst kv) l) s with
                 | Some kv => Ok kv
                 | None => Raise KeyError
                 end) labels.

(** [series.head(n)] is [series.iloc[:n]]. *)
Definition head {V} (n : Z) (s : Series V) : Series V := Py.slice_to n s.

End PdSort.

(** ** The module's globals (lines 58-78) *)

Record Globals := mkGlobals {
  df : list Row;
  user_item_matrix : DataFrame Qc;
  user_similarity : list (list Surd);
  item_similarity : list (list Surd)
}.

(** [df[label]]: a frame built from an empty list of records has no
    columns, so the lookup raises [KeyError]. *)
Definition df_column {V} (d : list Row) (field : Row -> V) : result (list V) :=
  match d with
  | [] => Raise KeyError
  | _ => Ok (map field d)
  end.

(** Lines 61-63. *)
Definition user_restaurant_pairs (referrers : list string) : list PairRow :=
  map (fun iu : nat * option string => mkPair (fst iu) (snd iu) 1%Z)
      (Pd.explode (map (Py.split ","%char) referrers)).

(** Lines 65-74, before the entries are checked to be finite. *)
Definition build_matrix (referrers names : list string)
  : DataFrame (option Qc) :=
  let counts := Pd.pivot_table (user_restaurant_pairs referrers) names in
  Pd.div counts (Pd.sum_axis1 counts).

(** The module body from line 61 to line 78, run on the table [d]
    returned by [get_notion_data()].  The entries of the matrix are kept
    as rationals once [cosine_similarity] has accepted them as finite. *)
Definition load (d : list Row) : result Globals :=
  referrers <- df_column d referrer ;;
  names <- df_column d shop_name ;;
  let m := build_matrix referrers names in
  usim <- Sk.cosine_similarity (values m) ;;
  isim <- Sk.cosine_similarity
          (Pd.transpose (List.length (columns m)) (values m)) ;;
  X <- Sk.check_array (values m) ;;
  Ok (mkGlobals d (mkFrame (index m) (columns m) X) usim isim).

(** ** The recommenders (lines 81-102) *)

(** The test [already_liked > 0]. *)
Definition positive (kv : string * Qc) : bool := negb (Qle_bool (snd kv) 0).


(** [a.argsort()[::-1][1:6]] *)
Definition top_neighbours (sims : list Surd) : list nat :=
  Py.slice 1 6 (Py.reversed (Np.argsort Np.Surd_leb sims)).

(** The intermediate [similar_users] of [user_based_recommendation]. *)
Definition similar_users (g : Globals) (user : string) : result (list nat) :=
  user_index <- Pd.get_loc user (index (user_item_matrix g)) ;;
  sims <- Pd.at_pos (user_similarity g) user_index ;;
  Ok (top_neighbours sims).

Definition user_based_recommendation (g : Globals) (user : string) (n : Z)
  : result (list string) :=
  let m := user_item_matrix g in
  if negb (Py.mem user (index m)) then Ok []
  else
    similar_users <- similar_users g user ;;
    rows <- Pd.take (values m) similar_users ;;
    let recommendations :=
      PdSort.sort_values_descending (Pd.mean (columns m) rows) in
    already_liked <- Pd.loc m user ;;
    let liked := filter positive already_liked in
    recommendations <-
      PdSort.getitem recommendations
        (PdSort.difference (map fst recommendations) (map fst liked)) ;;
    Ok (map fst (PdSort.head n recommendations)).

(** The intermediate [similar_items] of [item_based_recommendation]. *)
Definition similar_items (g : Globals) (restaurant : string)
  : result (list nat) :=
  item_index <- Pd.get_loc restaurant (columns (user_item_matrix g)) ;;
  sims <- Pd.at_pos (item_similarity g) item_index ;;
  Ok (top_neighbours sims).

Definition item_based_recommendation (g : Globals) (restaurant : string)
  (n : Z) : result (list string) :=
  let m := user_item_matrix g in
  if negb (Py.mem restaurant (columns m)) then Ok []
  else
    similar_items <- similar_items g restaurant ;;
    names <- Pd.take (columns m) similar_items ;;
    Ok (Py.slice_to n names).

(** ** Derived objects used in the statements *)

(** The rows of the matrix after line 74, when no row sum is zero. *)
Definition normalized_rows (rows : list (list Z)) : list (list Qc) :=
  map (fun row => map (fun x => (Qc_of_Z x / Qc_of_Z (Zsum row))%Qc) row) rows.

(** A list of [nrows] rows of [ncols] entries each. *)
Definition rectangular {V} (nrows ncols : nat) (X : list (list V)) : Prop :=
  List.length X = nrows /\ Forall (fun r => List.length r = ncols) X.

(** The pivot table of line 65 for the table [d]. *)
Definition counts_of (d : list Row) : DataFrame Z :=
  Pd.pivot_table (user_restaurant_pairs (map referrer d)) (map shop_name d).

(** The globals that a load of a non-empty table [d] leaves. *)
Definition globals_of (d : list Row) : Globals :=
  let c := counts_of d in
  let X := normalized_rows (values c) in
  mkGlobals d (mkFrame (index c) (columns c) X)
    (Sk.gram (Sk.normalize X))
    (Sk.gram (Sk.normalize (Pd.transpose (List.length (columns c)) X))).

(** The raw counts of a user: the cells of the pivot table in the
    user's row, over the columns of the table; all zero for a user
    without a row. *)
Definition raw_counts (d : list Row) (u : string) : list Z :=
  map (fun c => Pd.agg_sum
                  (Pd.groups (user_restaurant_pairs (map referrer d))
                             (map shop_name d)) u c)
      (columns (counts_of d)).

(** [K[i][j]], [None] out of bounds. *)
Definition entry (K : list (list Surd)) (i j : nat) : option Surd :=
  match nth_error K i with
  | Some r => nth_error r j
  | None => None
  end.

(** ** Similarities as real numbers *)

(** The value of a similarity. *)
Definition Surd2R (s : Surd) : R := (Q2R (num s) / sqrt (Q2R (rad s)))%R.

Definition dotR (a b : list R) : R :=
  fold_right Rplus 0%R (map (fun xy => (fst xy * snd xy)%R) (combine a b)).

(** The Euclidean norm. *)
Definition normR (a : list R) : R := sqrt (dotR a a).

Definition toR (a : list Qc) : list R := map (fun q : Qc => Q2R q) a.

(** The similarity of two rows, as [cosine_similarity] computes it. *)
Definition cosine (a b : list Qc) : Surd :=
  Sk.scaled_dot
    (mkScaled a (Sk.handle_zeros_in_scale (Sk.dot a a)))
    (mkScaled b (Sk.handle_zeros_in_scale (Sk.dot b b))).

(** ** Scenarios *)

Definition record (name referrers : string) : Row :=
  mkRow name EmptyString EmptyString referrers EmptyString.

(** The scenario of the specification. *)
Definition scenario : list Row :=
  [record "A" "alice,bob"; record "B" "alice"; record "C" "bob,carol"].

(** Two restaurants with the same referrer, and two users who refer the
    same restaurant. *)
Definition twin_items : list Row := [record "A" "alice"; record "B" "alice"].
Definition twin_users : list Row := [record "A" "alice"; record "A" "bob"].


(** The entries of a frame as plain fractions. *)
Definition fractions (f : DataFrame Qc) : list (list Q) :=
  map (map this) (values f).

(** The matrix of the scenario, as the code builds it. *)
Definition half : Qc := Q2Qc (1 # 2).
Definition sample : list (list Qc) :=
  [[half; 0%Qc; half]; [0%Qc; 1%Qc; 0%Qc]].

(** ** The presentation layer (lines 104-145) *)

(** [df[df['店名'] == restaurant].iloc[0]]: the first record of that
    name; [IndexError] when there is none. *)
Definition restaurant_info (d : list Row) (restaurant : string)
  : result Row :=
  Pd.at_pos (filter (fun r => String.eqb (shop_name r) restaurant) d) 0.

(** The body of the button handlers: the recommendations are computed
    with the default [n=3], and the record of each is looked up for
    display. *)
Definition show_user_based (g : Globals) (selected_user : string)
  : result (list Row) :=
  recommendations <- user_based_recommendation g selected_user 3 ;;
  mapM (restaurant_info (df g)) recommendations.

Definition show_item_based (g : Globals) (selected_restaurant : string)
  : result (list Row) :=
  recommendations <- item_based_recommendation g selected_restaurant 3 ;;
  mapM (restaurant_info (df g)) recommendations.

(** A referrer field without a comma names one referrer. *)
Definition no_comma (s : string) : bool :=
  forallb (fun c => negb (Ascii.eqb c ","%char)) (list_ascii_of_string s).

(** The referrer tokens of the table, in the order of [explode]. *)
Definition exploded_users (d : list Row) : list string :=
  List.concat (map (fun r => Py.split ","%char (referrer r)) d).

(** Single-referrer records. *)
Definition singles : list Row :=
  [record "A" "alice"; record "B" "bob"; record "A" "bob"].

(** The weight of a restaurant in a user's row after line 74. *)
Definition weight (d : list Row) (u c : string) : Qc :=
  (Qc_of_Z (Pd.agg_sum
              (Pd.groups (user_restaurant_pairs (map referrer d))
                         (map shop_name d)) u c)
   / Qc_of_Z (Zsum (raw_counts d u)))%Qc.

(** ** The loader (lines 23-55)

    The answer of the Notion API is a JSON value.  [JDict] holds the
    items of a Python [dict], whose keys are distinct. *)

#[warnings="-register-all"]
Inductive json :=
| JNull
| JBool (b : bool)
| JNum (q : Q)
| JStr (s : string)
| JList (l : list json)
| JDict (kv : list (string * json)).

(** The loader can also raise [TypeError]. *)
Inductive py_error := Builtin (e : exn) | TypeError.

Inductive outcome (A : Type) : Type :=
| Return (a : A)
| Throw (e : py_error).
Arguments Return {A} a.
Arguments Throw {A} e.

Definition and_then {A B} (m : outcome A) (k : A -> outcome B) : outcome B :=
  match m with
  | Return a => k a
  | Throw e => Throw e
  end.

Notation "x <~ m ;; k" := (and_then m (fun x => k))
  (at level 61, m at next level, right associativity).

Fixpoint for_each {A B} (f : A -> outcome B) (l : list A)
  : outcome (list B) :=
  match l with
  | [] => Return []
  | a :: l' => b <~ f a ;; bs <~ for_each f l' ;; Return (b :: bs)
  end.

Module Js.

Fixpoint dict_get (k : string) (kv : list (string * json)) : option json :=
  match kv with
  | [] => None
  | (k', v) :: kv' => if String.eqb k k' then Some v else dict_get k kv'
  end.

(** [bool(v)] *)
Definition truthy (v : json) : bool :=
  match v with
  | JNull => false
  | JBool b => b
  | JNum q => negb (Qeq_bool q 0)
  | JStr s => negb (String.eqb s EmptyString)
  | JList l => match l with [] => false | _ => true end
  | JDict kv => match kv with [] => false | _ => true end
  end.

(** [v[k]] for a string [k] *)
Definition item (v : json) (k : string) : outcome json :=
  match v with
  | JDict kv => match dict_get k kv with
                | Some x => Return x
                | None => Throw (Builtin KeyError)
                end
  | _ => Throw TypeError
  end.

(** The characters of a string.  A [string] holds the UTF-8 bytes of
    a Python [str]; a byte [10xxxxxx] continues the character before
    it. *)
Definition is_continuation (c : ascii) : bool :=
  let n := N_of_ascii c in ((128 <=? n) && (n <? 192))%N.

Fixpoint chars_aux (s : string) : string * list string :=
  match s with
  | EmptyString => (EmptyString, [])
  | String c s' =>
      let (pending, chars) := chars_aux s' in
      if is_continuation c then (String c pending, chars)
      else (EmptyString, String c pending :: chars)
  end.

Definition chars (s : string) : list string :=
  let (pending, chars) := chars_aux s in
  match pending with
  | EmptyString => chars
  | _ => pending :: chars
  end.

(** [v[0]] *)
Definition first (v : json) : outcome json :=
  match v with
  | JList (x :: _) => Return x
  | JList [] => Throw (Builtin IndexError)
  | JStr s => match chars s with
              | c :: _ => Return (JStr c)
              | [] => Throw (Builtin IndexError)
              end
  | JDict _ => Throw (Builtin KeyError)
  | _ => Throw TypeError
  end.

Fixpoint is_substring (k s : string) : bool :=
  String.prefix k s
  || match s with
     | EmptyString => false
     | String _ s' => is_substring k s'
     end.

(** [k in v] for a string [k] *)
Definition contains (k : string) (v : json) : outcome bool :=
  match v with
  | JDict kv => Return (match dict_get k kv with Some _ => true | None => false end)
  | JList l => Return (existsb (fun x => match x with
                                         | JStr s => String.eqb s k
                                         | _ => false
                                         end) l)
  | JStr s => Return (is_substring k s)
  | _ => Throw TypeError
  end.

(** The values that [for x in v] visits. *)
Definition iterate (v : json) : outcome (list json) :=
  match v with
  | JList l => Return l
  | JDict kv => Return (map (fun e => JStr (fst e)) kv)
  | JStr s => Return (map JStr (chars s))
  | _ => Throw TypeError
  end.

(** [sep.join(l)]: every element must be a string. *)
Definition join (sep : string) (l : list json) : outcome json :=
  strs <~ for_each (fun x => match x with
                             | JStr s => Return s
                             | _ => Throw TypeError
                             end) l ;;
  Return (JStr (String.concat sep strs)).

End Js.

(** Lines 41-47. *)
Definition get_tags (tag_property : json) : outcome json :=
  has_multi <~ Js.contains "multi_select" tag_property ;;
  if has_multi then
    tags <~ Js.item tag_property "multi_select" ;;
    tags <~ Js.iterate tags ;;
    names <~ for_each (fun tag => Js.item tag "name") tags ;;
    Js.join ", " names
  else
    has_select <~ Js.contains "select" tag_property ;;
    if has_select then
      select <~ Js.item tag_property "select" ;;
      if Js.truthy select then
        select <~ Js.item tag_property "select" ;;
        Js.item select "name"
      else Return (JStr EmptyString)
    else Return (JStr EmptyString).

(** Lines 49-55. *)
Definition get_station (station_property : json) : outcome json :=
  has_select <~ Js.contains "select" station_property ;;
  if has_select then
    select <~ Js.item station_property "select" ;;
    if Js.truthy select then
      select <~ Js.item station_property "select" ;;
      Js.item select "name"
    else Return (JStr EmptyString)
  else
    has_text <~ Js.contains "rich_text" station_property ;;
    if has_text then
      text <~ Js.item station_property "rich_text" ;;
      if Js.truthy text then
        text <~ Js.item station_property "rich_text" ;;
        fragment <~ Js.first text ;;
        Js.item fragment "plain_text"
      else Return (JStr EmptyString)
    else Return (JStr EmptyString).

(** An entry of [data]: the values under the keys 店名, タグ, URL,
    紹介者 and 店舗最寄り駅. *)
Record Item := mkItem {
  item_name : json;
  item_tags : json;
  item_url : json;
  item_referrer : json;
  item_station : json
}.

(** [properties[key][field][0]["plain_text"] if properties[key][field]
    else ""] *)
Definition first_plain_text (properties : json) (key field : string)
  : outcome json :=
  property <~ Js.item properties key ;;
  text <~ Js.item property field ;;
  if Js.truthy text then
    property <~ Js.item properties key ;;
    text <~ Js.item property field ;;
    fragment <~ Js.first text ;;
    Js.item fragment "plain_text"
  else Return (JStr EmptyString).

(** Lines 29-36, one pass of the loop. *)
Definition item_of_page (page : json) : outcome Item :=
  properties <~ Js.item page "properties" ;;
  name <~ first_plain_text properties "店名" "title" ;;
  tag_property <~ Js.item properties "タグ" ;;
  tags <~ get_tags tag_property ;;
  url_property <~ Js.item properties "URL" ;;
  url <~ Js.item url_property "url" ;;
  url <~ (if Js.truthy url then
            url_property <~ Js.item properties "URL" ;;
            Js.item url_property "url"
          else Return (JStr EmptyString)) ;;
  referrer <~ first_plain_text properties "紹介者" "rich_text" ;;
  station_property <~ Js.item properties "店舗最寄り駅" ;;
  station <~ get_station station_property ;;
  Return (mkItem name tags url referrer station).

(** Lines 23-39 on the answer [query] of [notion.databases.query]; the
    result is the list [data] that [pd.DataFrame] receives. *)
Definition get_notion_data (query : json) : outcome (list Item) :=
  results <~ Js.item query "results" ;;
  pages <~ Js.iterate results ;;
  for_each item_of_page pages.

(** The table of an all-string [data], as the rest of the module reads
    it. *)
Definition row_of_item (i : Item) : option Row :=
  match item_name i, item_tags i, item_url i, item_referrer i,
        item_station i with
  | JStr n, JStr t, JStr u, JStr r, JStr s => Some (mkRow n t u r s)
  | _, _, _, _, _ => None
  end.

(** ** Notion objects used in the statements *)

(** A rich-text array with the given fragments. *)
Definition rich_text (fragments : list string) : json :=
  JList (map (fun s => JDict [("type", JStr "text"); ("plain_text", JStr s)])
             fragments).

Definition option_name (name : option string) : json :=
  match name with
  | Some s => JDict [("id", JStr "x"); ("name", JStr s)]
  | None => JNull
  end.

(** A page with a title, multi-select tags, a URL, a referrer text and a
    select station. *)
Definition notion_page (title : list string) (tags : list string)
  (url : option string) (referrer : list string) (station : option string)
  : json :=
  JDict
    [("object", JStr "page");
     ("properties",
      JDict
        [("店名", JDict [("type", JStr "title"); ("title", rich_text title)]);
         ("タグ", JDict [("type", JStr "multi_select");
                        ("multi_select",
                         JList (map (fun t => option_name (Some t)) tags))]);
         ("URL", JDict [("type", JStr "url");
                        ("url", match url with
                                | Some u => JStr u
                                | None => JNull
                                end)]);
         ("紹介者", JDict [("type", JStr "rich_text");
                          ("rich_text", rich_text referrer)]);
         ("店舗最寄り駅", JDict [("type", JStr "select");
                               ("select", option_name station)])])].

(** The first fragment of a rich text, [""] when there is none. *)
Definition first_fragment (fragments : list string) : string :=
  match fragments with
  | [] => EmptyString
  | s :: _ => s
  end.

Definition or_empty (s : option string) : string :=
  match s with
  | Some x => x
  | None => EmptyString
  end.

(** What a page holds: the fragments of its title, its tags, its URL,
    the fragments of its referrer text and its station. *)
Record PageContent := mkPage {
  page_title : list string;
  page_tags : list string;
  page_url : option string;
  page_referrer : list string;
  page_station : option string
}.

Definition page_of (p : PageContent) : json :=
  notion_page (page_title p) (page_tags p) (page_url p) (page_referrer p)
              (page_station p).

(** The record that the loader makes of a page. *)
Definition row_of_page (p : PageContent) : Row :=
  mkRow (first_fragment (page_title p))
        (String.concat ", " (page_tags p))
        (or_empty (page_url p))
        (first_fragment (page_referrer p))
        (or_empty (page_station p)).

Definition item_of_row (r : Row) : Item :=
  mkItem (JStr (shop_name r)) (JStr (tags r)) (JStr (url r))
         (JStr (referrer r)) (JStr (station r)).

(** The keys that the loader reads from the properties of a page. *)
Definition property_keys : list string :=
  ["店名"; "タグ"; "URL"; "紹介者"; "店舗最寄り駅"].

Definition sample_pages : list PageContent :=
  [mkPage ["A"; "x"] ["ramen"; "cheap"] None ["alice,bob"] (Some "Shibuya");
   mkPage [] [] (Some "http://b") [] None].

(** ** The similarities in binary64 (lines 74-78)

    The same computation on [float64] values, with the rounding of every
    operation.  The sums of [einsum] and of the matrix product are taken
    from left to right, without fused multiply-add; the source does not
    fix their order. *)

Module F64.

(** An [int64] count as a [float64]; exact below [2^53]. *)
Definition of_count (z : Z) : float := PrimFloat.of_uint63 (Uint63.of_Z z).

(** Line 74: every count divided by the sum of its row. *)
Definition normalized_rows (rows : list (list Z)) : list (list float) :=
  map (fun row =>
         map (fun x => (of_count x / of_count (Zsum row))%float) row)
      rows.

(** [check_array]: at least one row and one column, and no entry that is
    NaN or infinite. *)
Definition check_array (X : list (list float)) : result (list (list float)) :=
  match X with
  | [] => Raise ValueError
  | [] :: _ => Raise ValueError
  | _ => if forallb (forallb PrimFloat.is_finite) X then Ok X
         else Raise ValueError
  end.

Definition dot (a b : list float) : float :=
  fold_left (fun acc xy => (acc + fst xy * snd xy)%float)
            (combine a b) 0%float.

(** [row_norms(X)]: [sqrt(einsum('ij,ij->i', X, X))] *)
Definition row_norms (X : list (list float)) : list float :=
  map (fun x => PrimFloat.sqrt (dot x x)) X.

(** [_handle_zeros_in_scale]: a zero norm is replaced by 1. *)
Definition handle_zeros_in_scale (s : float) : float :=
  if (s =? 0)%float then 1%float else s.

(** [normalize(X)]: [X /= norms[:, np.newaxis]] *)
Definition normalize (X : list (list float)) : list (list float) :=
  map (fun xn : list float * float =>
         map (fun v => (v / handle_zeros_in_scale (snd xn))%float) (fst xn))
      (combine X (row_norms X)).

(** [N @ N.T] *)
Definition gram (N : list (list float)) : list (list float) :=
  map (fun a => map (fun b => dot a b) N) N.

Definition cosine_similarity (X : list (list float))
  : result (list (list float)) :=
  X' <- check_array X ;;
  let X_normalized := normalize X' in
  Ok (gram X_normalized).

(** Lines 61-78 for the table [d]: [user_similarity] and
    [item_similarity]. *)
Definition similarities (d : list Row)
  : result (list (list float) * list (list float)) :=
  referrers <- df_column d referrer ;;
  names <- df_column d shop_name ;;
  let counts := Pd.pivot_table (user_restaurant_pairs referrers) names in
  let m := normalized_rows (values counts) in
  usim <- cosine_similarity m ;;
  isim <- cosine_similarity (Pd.transpose (List.length (columns counts)) m) ;;
  Ok (usim, isim).

(** [K[i][j]], [None] out of bounds. *)
Definition entry (K : list (list float)) (i j : nat) : option float :=
  match nth_error K i with
  | Some r => nth_error r j
  | None => None
  end.

End F64.

(** One user who refers A once, B twice and C once: the row
    [(0.25, 0.5, 0.25)]. *)
Definition quarters : list Row :=
  [record "A" "u"; record "B" "u"; record "B" "u"; record "C" "u"].


(** A zero row and a non-zero row, as exact numbers and in binary64. *)
Definition zero_and_one : list (list Qc) :=
  [[0%Qc; 0%Qc]; [1%Qc; Qc_of_Z 2]].

Definition zero_and_one64 : list (list float) :=
  [[0; 0]; [1; 2]]%float.

(** * Facts about the library models *)

Lemma mapM_Ok {A B} (f : A -> result B) (h : A -> B) (l : list A) :
  (forall a, In a l -> f a = Ok (h a)) -> mapM f l = Ok (map h l).
Proof.
  induction l as [|a l IH]; intros Hf; simpl.
  - reflexivity.
  - rewrite (Hf a (or_introl eq_refl)). simpl.
    rewrite IH by (intros; apply Hf; now right). reflexivity.
Qed.

Lemma at_pos_nth {V} (l : list V) (i : nat) (d : V) :
  i < List.length l -> Pd.at_pos l i = Ok (nth i l d).
Proof.
  intros Hi. unfold Pd.at_pos.
  rewrite (nth_error_nth' l d Hi). reflexivity.
Qed.

Lemma take_Ok {V} (l : list V) (ps : list nat) (d : V) :
  (forall p, In p ps -> p < List.length l) ->
  Pd.take l ps = Ok (map (fun p => nth p l d) ps).
Proof.
  intros H. unfold Pd.take. apply mapM_Ok.
  intros p Hp. apply at_pos_nth. auto.
Qed.

Section SortFacts.
Context {A : Type} (leb : A -> A -> bool).

Lemma insert_perm (x : A) (l : list A) :
  Permutation (insert leb x l) (x :: l).
Proof.
  induction l as [|y l IH]; simpl.
  - apply Permutation_refl.
  - destruct (leb x y).
    + apply Permutation_refl.
    + eapply perm_trans; [apply perm_skip, IH | apply perm_swap].
Qed.

Lemma sort_perm (l : list A) : Permutation (sort leb l) l.
Proof.
  induction l as [|x l IH]; simpl.
  - constructor.
  - eapply perm_trans; [apply insert_perm | now apply perm_skip].
Qed.
End SortFacts.

Section SortSorted.
Context {A : Type} (leb : A -> A -> bool).
Hypothesis leb_total : forall x y, leb x y = true \/ leb y x = true.
Hypothesis leb_trans : forall x y z,
  leb x y = true -> leb y z = true -> leb x z = true.

Lemma insert_sorted (x : A) (l : list A) :
  StronglySorted (fun a b => leb a b = true) l ->
  StronglySorted (fun a b => leb a b = true) (insert leb x l).
Proof.
  induction 1 as [|y l Hl IH Hy]; simpl.
  - constructor; constructor.
  - destruct (leb x y) eqn:E.
    + constructor; [now constructor|].
      constructor; [exact E|].
      eapply Forall_impl; [|exact Hy].
      intros z Hz. eapply leb_trans; eassumption.
    + constructor; [exact IH|].
      assert (Hyx : leb y x = true).
      { destruct (leb_total x y) as [H|H]; [congruence | exact H]. }
      apply Forall_forall. intros z Hz.
      apply (Permutation_in _ (insert_perm leb x l)) in Hz.
      destruct Hz as [<-|Hz]; [exact Hyx|].
      rewrite Forall_forall in Hy. now apply Hy.
Qed.

Lemma sort_sorted (l : list A) :
  StronglySorted (fun a b => leb a b = true) (sort leb l).
Proof.
  induction l as [|x l IH]; simpl; [constructor | now apply insert_sorted].
Qed.
End SortSorted.

Lemma map_fst_combine {A B} (l : list A) (l' : list B) :
  List.length l = List.length l' -> map fst (combine l l') = l.
Proof.
  revert l'. induction l as [|a l IH]; intros [|b l'] H; simpl in *;
    try discriminate; try reflexivity.
  f_equal. apply IH. now injection H.
Qed.

Lemma map_snd_combine {A B} (l : list A) (l' : list B) :
  List.length l = List.length l' -> map snd (combine l l') = l'.
Proof.
  revert l'. induction l as [|a l IH]; intros [|b l'] H; simpl in *;
    try discriminate; try reflexivity.
  f_equal. apply IH. now injection H.
Qed.

Lemma argsort_perm {V} (leb : V -> V -> bool) (a : list V) :
  Permutation (Np.argsort leb a) (seq 0 (List.length a)).
Proof.
  unfold Np.argsort.
  eapply perm_trans.
  - apply Permutation_map, sort_perm.
  - rewrite map_fst_combine by apply length_seq. apply Permutation_refl.
Qed.

(** [argsort] lists the positions in ascending order of their values. *)
Lemma argsort_sorted (a : list Surd) :
  StronglySorted
    (fun p q => Np.Surd_leb (nth p a (mkSurd 0%Qc 1%Qc))
                            (nth q a (mkSurd 0%Qc 1%Qc)) = true)
    (Np.argsort Np.Surd_leb a).
Proof.
  unfold Np.argsort.
  set (d := mkSurd 0%Qc 1%Qc).
  set (leb := fun p q : nat * Surd => Np.Surd_leb (snd p) (snd q)).
  assert (Hs : StronglySorted (fun p q => leb p q = true)
                 (sort leb (combine (seq 0 (List.length a)) a))).
  { apply sort_sorted.
    - intros x y. unfold leb, Np.Surd_leb.
      destruct (Qle_bool (Np.signed_square (snd x))
                         (Np.signed_square (snd y))) eqn:E; [now left|].
      right. apply Qle_bool_iff.
      apply Qlt_le_weak, Qnot_le_lt. intros H.
      apply Qle_bool_iff in H. congruence.
    - intros x y z. unfold leb, Np.Surd_leb.
      rewrite !Qle_bool_iff. apply Qle_trans. }
  assert (Hin : forall p, In p (sort leb (combine (seq 0 (List.length a)) a)) ->
                          snd p = nth (fst p) a d).
  { intros [i v] Hp.
    apply (Permutation_in _ (sort_perm leb _)) in Hp.
    apply In_nth_error in Hp. destruct Hp as [k Hk].
    pose proof Hk as Hk'.
    apply nth_error_split in Hk'. 
    assert (Hlt : k < List.length (combine (seq 0 (List.length a)) a)).
    { apply nth_error_Some. congruence. }
    rewrite length_combine, length_seq, Nat.min_id in Hlt.
    rewrite (nth_error_nth' _ (0, d)) in Hk
      by (rewrite length_combine, length_seq, Nat.min_id; exact Hlt).
    rewrite combine_nth in Hk by apply length_seq.
    rewrite seq_nth in Hk by exact Hlt.
    injection Hk as <- <-. reflexivity. }
  induction Hs as [|p l Hl IH Hp]; simpl; constructor.
  - apply IH. intros q Hq. apply Hin. now right.
  - rewrite Forall_map. rewrite Forall_forall in Hp |- *.
    intros q Hq. specialize (Hp q Hq). unfold leb in Hp.
    rewrite <- (Hin p (or_introl eq_refl)).
    rewrite <- (Hin q (or_intror Hq)). exact Hp.
Qed.

Lemma argsort_NoDup {V} (leb : V -> V -> bool) (a : list V) :
  NoDup (Np.argsort leb a).
Proof.
  eapply Permutation_NoDup.
  - apply Permutation_sym, argsort_perm.
  - apply seq_NoDup.
Qed.

Lemma argsort_bound {V} (leb : V -> V -> bool) (a : list V) (p : nat) :
  In p (Np.argsort leb a) -> p < List.length a.
Proof.
  intros H. apply (Permutation_in _ (argsort_perm leb a)) in H.
  apply in_seq in H. lia.
Qed.

(** Slices. *)

Lemma In_firstn {A} (n : nat) (l : list A) (x : A) :
  In x (firstn n l) -> In x l.
Proof.
  intros H. rewrite <- (firstn_skipn n l). apply in_or_app. now left.
Qed.

Lemma In_skipn {A} (n : nat) (l : list A) (x : A) :
  In x (skipn n l) -> In x l.
Proof.
  intros H. rewrite <- (firstn_skipn n l). apply in_or_app. now right.
Qed.

Lemma NoDup_firstn {A} (n : nat) (l : list A) :
  NoDup l -> NoDup (firstn n l).
Proof.
  intros H. rewrite <- (firstn_skipn n l) in H.
  now apply NoDup_app_remove_r in H.
Qed.

Lemma NoDup_skipn {A} (n : nat) (l : list A) :
  NoDup l -> NoDup (skipn n l).
Proof.
  intros H. rewrite <- (firstn_skipn n l) in H.
  now apply NoDup_app_remove_l in H.
Qed.

Lemma slice_In {A} (a b : Z) (l : list A) (x : A) :
  In x (Py.slice a b l) -> In x l.
Proof. unfold Py.slice. intros H. eapply In_skipn, In_firstn, H. Qed.

Lemma slice_NoDup {A} (a b : Z) (l : list A) :
  NoDup l -> NoDup (Py.slice a b l).
Proof. intros H. unfold Py.slice. now apply NoDup_firstn, NoDup_skipn. Qed.

Lemma slice_1_6_length {A} (l : list A) :
  List.length (Py.slice 1 6 l) <= 5.
Proof.
  unfold Py.slice, Py.bound.
  change (6 <? 0)%Z with false. change (1 <? 0)%Z with false.
  cbv iota. rewrite length_firstn.
  assert (H6 : Z.to_nat 6 = 6) by reflexivity.
  assert (H1 : Z.to_nat 1 = 1) by reflexivity. lia.
Qed.

Lemma slice_to_In {A} (n : Z) (l : list A) (x : A) :
  In x (Py.slice_to n l) -> In x l.
Proof. unfold Py.slice_to. apply In_firstn. Qed.

Lemma slice_to_NoDup {A} (n : Z) (l : list A) :
  NoDup l -> NoDup (Py.slice_to n l).
Proof. unfold Py.slice_to. apply NoDup_firstn. Qed.

Lemma slice_to_length_le {A} (n : Z) (l : list A) :
  List.length (Py.slice_to n l) <= List.length l.
Proof. unfold Py.slice_to. rewrite length_firstn. lia. Qed.

Lemma slice_to_length_n {A} (n : Z) (l : list A) :
  (0 <= n)%Z -> (Z.of_nat (List.length (Py.slice_to n l)) <= n)%Z.
Proof.
  intros Hn. unfold Py.slice_to, Py.bound. rewrite length_firstn.
  destruct (Z.ltb_spec n 0); lia.
Qed.

Lemma slice_to_map {A B} (f : A -> B) (n : Z) (l : list A) :
  map f (Py.slice_to n l) = Py.slice_to n (map f l).
Proof.
  unfold Py.slice_to. rewrite length_map. apply eq_sym, firstn_map.
Qed.

(** The neighbour window. *)

Lemma top_neighbours_length (sims : list Surd) :
  List.length (top_neighbours sims) <= 5.
Proof. apply slice_1_6_length. Qed.

Lemma top_neighbours_NoDup (sims : list Surd) : NoDup (top_neighbours sims).
Proof.
  unfold top_neighbours, Py.reversed.
  apply slice_NoDup, NoDup_rev, argsort_NoDup.
Qed.

Lemma top_neighbours_bound (sims : list Surd) (p : nat) :
  In p (top_neighbours sims) -> p < List.length sims.
Proof.
  unfold top_neighbours, Py.reversed. intros H.
  apply slice_In in H. apply in_rev in H.
  eapply argsort_bound, H.
Qed.

(** * The matrix builder *)

Lemma split_not_nil (sep : ascii) (s : string) : Py.split sep s <> [].
Proof.
  destruct s as [|c s]; simpl.
  - discriminate.
  - destruct (Ascii.eqb c sep); [discriminate|].
    destruct (Py.split sep s); discriminate.
Qed.

Lemma unique_In (l : list string) (x : string) :
  In x (Pd.unique l) <-> In x l.
Proof.
  induction l as [|y l IH]; simpl; [tauto|].
  rewrite filter_In, IH.
  destruct (String.eqb_spec y x) as [->|Hne]; simpl.
  - intuition discriminate.
  - intuition congruence.
Qed.

Lemma unique_NoDup (l : list string) : NoDup (Pd.unique l).
Proof.
  induction l as [|y l IH]; simpl; constructor.
  - rewrite filter_In, String.eqb_refl. simpl. intros [_ H]. discriminate.
  - now apply NoDup_filter.
Qed.

Lemma sort_strings_In (l : list string) (x : string) :
  In x (sort String.leb l) <-> In x l.
Proof.
  split; apply Permutation_in;
    [apply sort_perm | apply Permutation_sym, sort_perm].
Qed.

Lemma sort_strings_NoDup (l : list string) :
  NoDup l -> NoDup (sort String.leb l).
Proof.
  apply Permutation_NoDup, Permutation_sym, sort_perm.
Qed.

(** Every kept group row carries a rating of 1. *)

Lemma pairs_rating (referrers : list string) :
  Forall (fun p => rating p = 1%Z) (user_restaurant_pairs referrers).
Proof.
  unfold user_restaurant_pairs. apply Forall_forall.
  intros p Hp. apply in_map_iff in Hp. destruct Hp as [iu [<- _]].
  reflexivity.
Qed.

Lemma dropna_keys_In (rows : list (option string * option string * Z))
  (u c : string) (v : Z) :
  In (u, c, v) (Pd.dropna_keys rows) <-> In (Some u, Some c, v) rows.
Proof.
  induction rows as [|[[[u'|] [c'|]] v'] rows IH]; simpl;
    try rewrite IH; try tauto;
    intuition (try congruence).
Qed.

Lemma groups_rating (pairs : list PairRow) (key : list string) :
  Forall (fun p => rating p = 1%Z) pairs ->
  Forall (fun r => snd r = 1%Z) (Pd.groups pairs key).
Proof.
  intros H. apply Forall_forall. intros [[u c] v] Hin. simpl.
  unfold Pd.groups in Hin. apply dropna_keys_In in Hin.
  apply in_combine_r in Hin. apply in_map_iff in Hin.
  destruct Hin as [p [<- Hp]].
  rewrite Forall_forall in H. now apply H.
Qed.

(** A non-empty table leaves at least one group: the first exploded
    row is aligned with the first record. *)
Lemma groups_not_nil (r : string) (rs : list string) (nm : string)
  (nms : list string) :
  Pd.groups (user_restaurant_pairs (r :: rs)) (nm :: nms) <> [].
Proof.
  unfold user_restaurant_pairs, Pd.groups, Pd.explode. simpl.
  destruct (Py.split ","%char r) as [|w ws] eqn:E.
  - now apply split_not_nil in E.
  - simpl. discriminate.
Qed.

(** Sums of cells. *)

Lemma Zsum_nonneg (l : list Z) :
  Forall (fun x => (0 <= x)%Z) l -> (0 <= Zsum l)%Z.
Proof.
  induction 1; simpl; lia.
Qed.

Lemma Zsum_ge_member (l : list Z) (x : Z) :
  Forall (fun y => (0 <= y)%Z) l -> In x l -> (x <= Zsum l)%Z.
Proof.
  induction 1 as [|y l Hy Hl IH]; simpl; intros Hin; [contradiction|].
  pose proof (Zsum_nonneg l Hl).
  destruct Hin as [->|Hin]; [|specialize (IH Hin)]; lia.
Qed.

Lemma agg_sum_nonneg (g : list (string * string * Z)) (u c : string) :
  Forall (fun r => snd r = 1%Z) g -> (0 <= Pd.agg_sum g u c)%Z.
Proof.
  intros H. unfold Pd.agg_sum. apply Zsum_nonneg.
  apply Forall_forall. intros x Hx. apply in_map_iff in Hx.
  destruct Hx as [r [<- Hr]]. apply filter_In in Hr.
  rewrite Forall_forall in H. rewrite (H r (proj1 Hr)). lia.
Qed.

Lemma agg_sum_pos (g : list (string * string * Z)) (u c : string) (v : Z) :
  Forall (fun r => snd r = 1%Z) g -> In (u, c, v) g ->
  (1 <= Pd.agg_sum g u c)%Z.
Proof.
  intros H Hin. unfold Pd.agg_sum.
  assert (Hv : v = 1%Z).
  { rewrite Forall_forall in H. apply (H _ Hin). }
  subst v.
  apply (Zsum_ge_member _ 1%Z).
  - apply Forall_forall. intros x Hx. apply in_map_iff in Hx.
    destruct Hx as [r [<- Hr]]. apply filter_In in Hr.
    rewrite Forall_forall in H. rewrite (H r (proj1 Hr)). lia.
  - apply in_map_iff. exists (u, c, 1%Z). split; [reflexivity|].
    apply filter_In. split; [assumption|]. simpl.
    now rewrite !String.eqb_refl.
Qed.

(** Every row of the pivot table has a positive sum: each row label
    comes from a kept group, whose cell counts at least that group. *)
Lemma pivot_table_row_sums (pairs : list PairRow) (key : list string) :
  Forall (fun p => rating p = 1%Z) pairs ->
  Forall (fun s => (1 <= s)%Z) (Pd.sum_axis1 (Pd.pivot_table pairs key)).
Proof.
  intros Hr. apply (groups_rating pairs key) in Hr.
  unfold Pd.sum_axis1, Pd.pivot_table. simpl.
  apply Forall_forall. intros s Hs.
  apply in_map_iff in Hs. destruct Hs as [row [<- Hrow]].
  apply in_map_iff in Hrow. destruct Hrow as [u [<- Hu]].
  apply sort_strings_In, unique_In, in_map_iff in Hu.
  destruct Hu as [[[u' c] v] [Eu Hin]]. simpl in Eu. subst u'.
  pose proof (agg_sum_pos _ _ _ _ Hr Hin) as Hpos.
  assert (Hle : (Pd.agg_sum (Pd.groups pairs key) u c
                 <= Zsum (map (fun c0 => Pd.agg_sum (Pd.groups pairs key) u c0)
                           (sort String.leb
                              (Pd.unique
                                 (map (fun r => snd (fst r))
                                      (Pd.groups pairs key))))))%Z).
  { apply Zsum_ge_member.
    - apply Forall_forall. intros x Hx. apply in_map_iff in Hx.
      destruct Hx as [c0 [<- _]]. now apply agg_sum_nonneg.
    - apply in_map_iff. exists c. split; [reflexivity|].
      apply sort_strings_In, unique_In, in_map_iff.
      exists (u, c, v). now split. }
  lia.
Qed.

Lemma div_values (f : DataFrame Z) :
  Forall (fun s => (1 <= s)%Z) (Pd.sum_axis1 f) ->
  values (Pd.div f (Pd.sum_axis1 f))
  = map (map Some) (normalized_rows (values f)).
Proof.
  unfold Pd.div, Pd.sum_axis1, normalized_rows. simpl.
  induction (values f) as [|row rows IH]; simpl; intros H.
  - reflexivity.
  - inversion H as [|s ss Hs Hss]; subst. f_equal.
    + destruct (Z.eqb_spec (Zsum row) 0); [lia|].
      now rewrite map_map.
    + now apply IH.
Qed.

Lemma mapM_finite (l : list Qc) : mapM Sk.finite (map Some l) = Ok l.
Proof.
  induction l as [|x l IH]; simpl; [reflexivity|]. now rewrite IH.
Qed.

Lemma check_array_Ok (X : list (list Qc)) :
  X <> [] -> hd [] X <> [] ->
  Sk.check_array (map (map Some) X) = Ok X.
Proof.
  intros HX Hhd.
  assert (E : mapM (mapM Sk.finite) (map (map Some) X) = Ok X).
  { clear. induction X as [|r X IH]; simpl; [reflexivity|].
    rewrite mapM_finite. simpl. now rewrite IH. }
  destruct X as [|[|x r] X]; simpl in *; try congruence.
Qed.

Lemma cosine_similarity_Ok (X : list (list Qc)) :
  X <> [] -> hd [] X <> [] ->
  Sk.cosine_similarity (map (map Some) X) = Ok (Sk.gram (Sk.normalize X)).
Proof.
  intros HX Hhd. unfold Sk.cosine_similarity.
  now rewrite check_array_Ok.
Qed.

Lemma transpose_map {V W} (f : V -> W) (n : nat) (X : list (list V)) :
  Pd.transpose n (map (map f) X) = map (map f) (Pd.transpose n X).
Proof.
  unfold Pd.transpose. rewrite map_map. apply map_ext. intros j.
  induction X as [|r X IH]; simpl; [reflexivity|].
  rewrite IH, map_app. f_equal.
  rewrite nth_error_map. now destruct (nth_error r j).
Qed.

(** Shapes. *)

Lemma pivot_table_shape (pairs : list PairRow) (key : list string) :
  let f := Pd.pivot_table pairs key in
  rectangular (List.length (index f)) (List.length (columns f)) (values f).
Proof.
  unfold Pd.pivot_table, rectangular. simpl. split.
  - apply length_map.
  - apply Forall_forall. intros r Hr. apply in_map_iff in Hr.
    destruct Hr as [u [<- _]]. apply length_map.
Qed.

Lemma normalized_rows_shape (m n : nat) (rows : list (list Z)) :
  rectangular m n rows -> rectangular m n (normalized_rows rows).
Proof.
  unfold rectangular, normalized_rows. intros [Hl Hr]. split.
  - now rewrite length_map.
  - apply Forall_forall. intros r Hin. apply in_map_iff in Hin.
    destruct Hin as [row [<- Hrow]]. rewrite length_map.
    rewrite Forall_forall in Hr. now apply Hr.
Qed.

Lemma transpose_shape {V} (m n : nat) (X : list (list V)) :
  rectangular m n X -> rectangular n m (Pd.transpose n X).
Proof.
  unfold rectangular, Pd.transpose. intros [Hl Hr]. split.
  - now rewrite length_map, length_seq.
  - apply Forall_forall. intros r Hin. apply in_map_iff in Hin.
    destruct Hin as [j [<- Hj]]. apply in_seq in Hj.
    subst m. induction Hr as [|r X Hlen HX IH]; simpl.
    + reflexivity.
    + rewrite length_app, IH.
      destruct (nth_error r j) eqn:E; [reflexivity|].
      apply nth_error_None in E. lia.
Qed.

Lemma gram_shape (N : list Scaled) :
  rectangular (List.length N) (List.length N) (Sk.gram N).
Proof.
  unfold rectangular, Sk.gram. split.
  - apply length_map.
  - apply Forall_forall. intros r Hin. apply in_map_iff in Hin.
    destruct Hin as [a [<- _]]. apply length_map.
Qed.

Lemma normalize_length (X : list (list Qc)) :
  List.length (Sk.normalize X) = List.length X.
Proof.
  unfold Sk.normalize, Sk.row_norms_squared.
  rewrite length_map, length_combine, length_map. lia.
Qed.

Lemma rectangular_not_nil {V} (m n : nat) (X : list (list V)) :
  rectangular m n X -> 0 < m -> 0 < n -> X <> [] /\ hd [] X <> [].
Proof.
  intros [Hl Hr] Hm Hn. destruct X as [|r X]; simpl in *; [lia|].
  split; [discriminate|]. inversion Hr; subst.
  destruct r; simpl in *; [lia | discriminate].
Qed.

Lemma pivot_table_not_nil (pairs : list PairRow) (key : list string) :
  Pd.groups pairs key <> [] ->
  0 < List.length (index (Pd.pivot_table pairs key))
  /\ 0 < List.length (columns (Pd.pivot_table pairs key)).
Proof.
  intros Hg. unfold Pd.pivot_table. simpl.
  destruct (Pd.groups pairs key) as [|[[u c] v] g]; [congruence|].
  split.
  - assert (H : In u (sort String.leb
                        (Pd.unique (map (fun r => fst (fst r)) ((u, c, v) :: g))))).
    { apply sort_strings_In, unique_In. now left. }
    destruct (sort String.leb _); [contradiction | simpl; lia].
  - assert (H : In c (sort String.leb
                        (Pd.unique (map (fun r => snd (fst r)) ((u, c, v) :: g))))).
    { apply sort_strings_In, unique_In. now left. }
    destruct (sort String.leb _); [contradiction | simpl; lia].
Qed.

(** ** What [load] leaves in the globals *)

Lemma counts_of_row_sums (d : list Row) :
  Forall (fun s => (1 <= s)%Z) (Pd.sum_axis1 (counts_of d)).
Proof. apply pivot_table_row_sums, pairs_rating. Qed.

Lemma counts_of_not_nil (d : list Row) :
  d <> [] ->
  0 < List.length (index (counts_of d))
  /\ 0 < List.length (columns (counts_of d)).
Proof.
  intros Hd. apply pivot_table_not_nil.
  destruct d as [|r d]; [congruence|]. apply groups_not_nil.
Qed.

Lemma weights_shape (d : list Row) :
  rectangular (List.length (index (counts_of d)))
              (List.length (columns (counts_of d)))
              (normalized_rows (values (counts_of d))).
Proof. apply normalized_rows_shape, pivot_table_shape. Qed.

Lemma load_nil : load [] = Raise KeyError.
Proof. reflexivity. Qed.

Lemma load_Ok (d : list Row) : d <> [] -> load d = Ok (globals_of d).
Proof.
  intros Hd.
  destruct (counts_of_not_nil d Hd) as [Hi Hc].
  pose proof (weights_shape d) as Hs.
  destruct (rectangular_not_nil _ _ _ Hs Hi Hc) as [HX Hhd].
  destruct (rectangular_not_nil _ _ _ (transpose_shape _ _ _ Hs) Hc Hi)
    as [HT HThd].
  unfold load.
  destruct d as [|r d']; [congruence|].
  remember (r :: d') as d eqn:Ed.
  assert (E1 : df_column d referrer = Ok (map referrer d)) by now subst d.
  assert (E2 : df_column d shop_name = Ok (map shop_name d)) by now subst d.
  rewrite E1. unfold bind at 1. rewrite E2. unfold bind at 1. cbv zeta.
  assert (Ev : values (build_matrix (map referrer d) (map shop_name d))
               = map (map Some) (normalized_rows (values (counts_of d)))).
  { apply div_values, counts_of_row_sums. }
  rewrite Ev.
  change (columns (build_matrix (map referrer d) (map shop_name d)))
    with (columns (counts_of d)).
  change (index (build_matrix (map referrer d) (map shop_name d)))
    with (index (counts_of d)).
  rewrite transpose_map.
  rewrite !cosine_similarity_Ok by assumption. unfold bind at 1 2.
  rewrite check_array_Ok by assumption. reflexivity.
Qed.

Lemma load_inv (d : list Row) (g : Globals) :
  load d = Ok g -> d <> [] /\ g = globals_of d.
Proof.
  intros H. destruct d as [|r d].
  - discriminate.
  - split; [discriminate|].
    rewrite load_Ok in H by discriminate. now injection H.
Qed.

(** ** Row sums *)

Lemma Qc_of_Z_plus (a b : Z) :
  Qc_of_Z (a + b) = (Qc_of_Z a + Qc_of_Z b)%Qc.
Proof.
  unfold Qc_of_Z. apply Qc_is_canon. unfold Qcplus. cbn [this Q2Qc].
  rewrite !Qred_correct. rewrite inject_Z_plus. reflexivity.
Qed.

Lemma Qc_of_Z_0 : Qc_of_Z 0 = 0%Qc.
Proof. apply Qc_is_canon. reflexivity. Qed.

Lemma Qc_of_Z_nonzero (z : Z) : z <> 0%Z -> Qc_of_Z z <> 0%Qc.
Proof.
  intros Hz E. apply Hz.
  assert (H : (inject_Z z == 0)%Q).
  { unfold Qc_of_Z in E. apply (f_equal this) in E. cbn [this Q2Qc] in E.
    rewrite <- (Qred_correct (inject_Z z)). rewrite E. reflexivity. }
  unfold Qeq in H. simpl in H. lia.
Qed.

Lemma Qcsum_div (row : list Z) (s : Qc) :
  Qcsum (map (fun x => (Qc_of_Z x / s)%Qc) row) = (Qc_of_Z (Zsum row) / s)%Qc.
Proof.
  induction row as [|x row IH]; simpl.
  - rewrite Qc_of_Z_0. unfold Qcdiv. now rewrite Qcmult_0_l.
  - rewrite IH, Qc_of_Z_plus. unfold Qcdiv. ring.
Qed.

Lemma normalized_row_sum (row : list Z) :
  (1 <= Zsum row)%Z ->
  Qcsum (map (fun x => (Qc_of_Z x / Qc_of_Z (Zsum row))%Qc) row) = 1%Qc.
Proof.
  intros H. rewrite Qcsum_div. unfold Qcdiv.
  apply Qcmult_inv_r, Qc_of_Z_nonzero. lia.
Qed.

Lemma weights_row_sums (d : list Row) :
  Forall (fun row => Qcsum row = 1%Qc) (normalized_rows (values (counts_of d))).
Proof.
  pose proof (counts_of_row_sums d) as H.
  unfold Pd.sum_axis1 in H. rewrite Forall_map in H.
  unfold normalized_rows. rewrite Forall_map.
  eapply Forall_impl; [|exact H].
  intros row Hrow. now apply normalized_row_sum.
Qed.

(** * The recommenders *)

Lemma mem_In (x : string) (l : list string) : Py.mem x l = true <-> In x l.
Proof.
  unfold Py.mem. rewrite existsb_exists. split.
  - intros [y [Hy E]]. apply String.eqb_eq in E. now subst.
  - intros H. exists x. split; [assumption | apply String.eqb_refl].
Qed.

Lemma mem_not_In (x : string) (l : list string) :
  Py.mem x l = false <-> ~ In x l.
Proof.
  rewrite <- mem_In. destruct (Py.mem x l); intuition congruence.
Qed.

Lemma find_index_In (x : string) (l : list string) :
  In x l ->
  exists i, Py.find_index x l = Some i /\ nth_error l i = Some x.
Proof.
  induction l as [|y l IH]; simpl; [contradiction|].
  intros H. destruct (String.eqb_spec x y) as [->|Hne].
  - exists 0. now split.
  - destruct H as [->|H]; [congruence|].
    destruct (IH H) as [i [Ei Hi]]. exists (S i). rewrite Ei. now split.
Qed.

Lemma get_loc_In (x : string) (l : list string) :
  In x l ->
  exists i, Pd.get_loc x l = Ok i /\ nth_error l i = Some x
            /\ i < List.length l.
Proof.
  intros H. destruct (find_index_In x l H) as [i [Ei Hi]].
  exists i. unfold Pd.get_loc. rewrite Ei. repeat split; try assumption.
  apply nth_error_Some. congruence.
Qed.

Lemma rectangular_row {V} (m n : nat) (X : list (list V)) (i : nat) :
  rectangular m n X -> i < m ->
  exists r, nth_error X i = Some r /\ List.length r = n.
Proof.
  intros [Hl Hr] Hi. destruct (nth_error X i) as [r|] eqn:E.
  - exists r. split; [reflexivity|].
    rewrite Forall_forall in Hr. eapply Hr, nth_error_In, E.
  - apply nth_error_None in E. lia.
Qed.

Lemma at_pos_rectangular {V} (m n : nat) (X : list (list V)) (i : nat) :
  rectangular m n X -> i < m ->
  exists r, Pd.at_pos X i = Ok r /\ List.length r = n.
Proof.
  intros HX Hi. destruct (rectangular_row _ _ _ _ HX Hi) as [r [E Hr]].
  exists r. unfold Pd.at_pos. now rewrite E.
Qed.

(** [Index.difference] *)

Lemma difference_In (this other : list string) (x : string) :
  In x (PdSort.difference this other) -> In x this /\ ~ In x other.
Proof.
  unfold PdSort.difference. destruct other as [|o other].
  - intros H. apply (proj1 (unique_In _ _)) in H.
    split; [assumption | intros []].
  - intros H. apply (proj1 (sort_strings_In _ _)) in H.
    apply (proj1 (unique_In _ _)) in H. apply filter_In in H.
    destruct H as [H1 H2]. split; [assumption|].
    apply mem_not_In. now destruct (Py.mem x (o :: other)).
Qed.

Lemma difference_NoDup (this other : list string) :
  NoDup (PdSort.difference this other).
Proof.
  unfold PdSort.difference. destruct other.
  - apply unique_NoDup.
  - apply sort_strings_NoDup, unique_NoDup.
Qed.

(** [series[labels]] *)

Lemma getitem_Ok {V} (s : Series V) (labels : list string) :
  incl labels (map fst s) ->
  exists s', PdSort.getitem s labels = Ok s' /\ map fst s' = labels.
Proof.
  unfold PdSort.getitem.
  induction labels as [|l labels IH]; intros Hincl; simpl.
  - exists []. now split.
  - destruct IH as [s' [E Hs']].
    { intros x Hx. apply Hincl. now right. }
    assert (Hl : In l (map fst s)) by (apply Hincl; now left).
    apply in_map_iff in Hl. destruct Hl as [kv [Ekv Hkv]].
    destruct (find (fun kv0 : string * V => String.eqb (fst kv0) l) s)
      as [kv'|] eqn:Ef.
    + apply find_some in Ef. destruct Ef as [_ Ef].
      apply String.eqb_eq in Ef.
      exists (kv' :: s'). split.
      * unfold bind at 1. rewrite E. reflexivity.
      * simpl. now rewrite Ef, Hs'.
    + exfalso. apply (find_none _ _ Ef) in Hkv.
      rewrite Ekv, String.eqb_refl in Hkv. discriminate.
Qed.

(** [sort_values] keeps entries of the Series it sorts. *)
Lemma sort_values_In (s : Series (option Qc)) (kv : string * option Qc) :
  In kv (PdSort.sort_values_descending s) -> In kv s.
Proof.
  unfold PdSort.sort_values_descending. intros H.
  apply in_flat_map in H. destruct H as [k [_ Hk]].
  destruct (nth_error s k) eqn:E; [|contradiction].
  destruct Hk as [<-|[]]. eapply nth_error_In, E.
Qed.

Lemma mean_labels (cols : list string) (rows : list (list Qc)) :
  map fst (Pd.mean cols rows) = cols.
Proof.
  unfold Pd.mean. rewrite map_map. simpl.
  change (fun x : nat * string => snd x) with (@snd nat string).
  apply map_snd_combine, length_seq.
Qed.

(** ** The globals after a successful load *)

Lemma index_NoDup (d : list Row) : NoDup (index (counts_of d)).
Proof. apply sort_strings_NoDup, unique_NoDup. Qed.

Lemma columns_NoDup (d : list Row) : NoDup (columns (counts_of d)).
Proof. apply sort_strings_NoDup, unique_NoDup. Qed.

Lemma user_similarity_shape (d : list Row) :
  let n := List.length (index (counts_of d)) in
  rectangular n n (user_similarity (globals_of d)).
Proof.
  simpl. pose proof (weights_shape d) as [Hl _].
  rewrite <- Hl at 1 2. rewrite <- normalize_length. apply gram_shape.
Qed.

Lemma item_similarity_shape (d : list Row) :
  let n := List.length (columns (counts_of d)) in
  rectangular n n (item_similarity (globals_of d)).
Proof.
  simpl. pose proof (transpose_shape _ _ _ (weights_shape d)) as [Hl _].
  rewrite <- Hl at 1 2. rewrite <- normalize_length. apply gram_shape.
Qed.

Lemma similar_users_Ok (d : list Row) (user : string) :
  In user (index (counts_of d)) ->
  exists i sims,
    nth_error (index (counts_of d)) i = Some user
    /\ nth_error (user_similarity (globals_of d)) i = Some sims
    /\ List.length sims = List.length (index (counts_of d))
    /\ similar_users (globals_of d) user = Ok (top_neighbours sims).
Proof.
  intros Hu.
  destruct (get_loc_In _ _ Hu) as [i [Ei [Hi Hlt]]].
  destruct (at_pos_rectangular _ _ _ _ (user_similarity_shape d) Hlt)
    as [sims [Es Hs]].
  exists i, sims. repeat split; try assumption.
  - unfold Pd.at_pos in Es.
    destruct (nth_error (user_similarity (globals_of d)) i);
      [now injection Es as -> | discriminate].
  - unfold similar_users.
    change (index (user_item_matrix (globals_of d)))
      with (index (counts_of d)).
    rewrite Ei. unfold bind at 1. rewrite Es. reflexivity.
Qed.

Lemma similar_items_Ok (d : list Row) (restaurant : string) :
  In restaurant (columns (counts_of d)) ->
  exists i sims,
    nth_error (columns (counts_of d)) i = Some restaurant
    /\ nth_error (item_similarity (globals_of d)) i = Some sims
    /\ List.length sims = List.length (columns (counts_of d))
    /\ similar_items (globals_of d) restaurant = Ok (top_neighbours sims).
Proof.
  intros Hu.
  destruct (get_loc_In _ _ Hu) as [i [Ei [Hi Hlt]]].
  destruct (at_pos_rectangular _ _ _ _ (item_similarity_shape d) Hlt)
    as [sims [Es Hs]].
  exists i, sims. repeat split; try assumption.
  - unfold Pd.at_pos in Es.
    destruct (nth_error (item_similarity (globals_of d)) i);
      [now injection Es as -> | discriminate].
  - unfold similar_items.
    change (columns (user_item_matrix (globals_of d)))
      with (columns (counts_of d)).
    rewrite Ei. unfold bind at 1. rewrite Es. reflexivity.
Qed.

(** What [user_based_recommendation] returns for a user of the matrix:
    the first [n] labels of an [Index.difference] whose left operand
    holds column labels and whose right operand holds the labels of the
    positive entries of the user's row. *)
Lemma user_based_known (d : list Row) (user : string) (n : Z) :
  In user (index (counts_of d)) ->
  exists this row,
    user_based_recommendation (globals_of d) user n
    = Ok (Py.slice_to n
            (PdSort.difference this (map fst (filter positive row))))
    /\ incl this (columns (counts_of d))
    /\ Pd.loc (user_item_matrix (globals_of d)) user = Ok row.
Proof.
  intros Hu.
  destruct (similar_users_Ok d user Hu) as [i [sims [Hi [Hs [Hlen Esu]]]]].
  pose proof (weights_shape d) as Hshape.
  assert (Hlt : i < List.length (index (counts_of d))).
  { apply nth_error_Some. congruence. }
  (* the rows of the neighbours *)
  assert (Etake : Pd.take (values (user_item_matrix (globals_of d)))
                          (top_neighbours sims)
                  = Ok (map (fun p => nth p (values (user_item_matrix
                                                       (globals_of d))) [])
                            (top_neighbours sims))).
  { apply take_Ok. intros p Hp. apply top_neighbours_bound in Hp.
    change (values (user_item_matrix (globals_of d)))
      with (normalized_rows (values (counts_of d))).
    destruct Hshape as [Hl _]. rewrite Hl. lia. }
  (* the user's own row *)
  destruct (get_loc_In _ _ Hu) as [i' [Ei' [_ Hlt']]].
  destruct (at_pos_rectangular _ _ _ _ Hshape Hlt') as [r [Er _]].
  assert (Eloc : Pd.loc (user_item_matrix (globals_of d)) user
                 = Ok (combine (columns (counts_of d)) r)).
  { unfold Pd.loc.
    change (index (user_item_matrix (globals_of d)))
      with (index (counts_of d)).
    change (values (user_item_matrix (globals_of d)))
      with (normalized_rows (values (counts_of d))).
    rewrite Ei'. unfold bind at 1. rewrite Er. reflexivity. }
  set (rows := map (fun p => nth p (values (user_item_matrix
                                              (globals_of d))) [])
                   (top_neighbours sims)) in *.
  set (recs := PdSort.sort_values_descending
                 (Pd.mean (columns (counts_of d)) rows)).
  set (row := combine (columns (counts_of d)) r) in *.
  assert (Hrecs : incl (map fst recs) (columns (counts_of d))).
  { intros x Hx. apply in_map_iff in Hx. destruct Hx as [kv [<- Hkv]].
    apply sort_values_In in Hkv.
    rewrite <- (mean_labels (columns (counts_of d)) rows).
    apply in_map. exact Hkv. }
  destruct (getitem_Ok recs
              (PdSort.difference (map fst recs)
                 (map fst (filter positive row)))) as [recs' [Eg Hl']].
  { intros x Hx. apply difference_In in Hx. exact (proj1 Hx). }
  exists (map fst recs), row. split; [|split; assumption].
  unfold user_based_recommendation.
  change (index (user_item_matrix (globals_of d)))
    with (index (counts_of d)).
  rewrite (proj2 (mem_In _ _) Hu). simpl negb. cbv iota.
  rewrite Esu. unfold bind at 1. rewrite Etake. unfold bind at 1.
  rewrite Eloc. unfold bind at 1.
  change (columns (user_item_matrix (globals_of d)))
    with (columns (counts_of d)).
  fold rows. fold recs.
  rewrite Eg. unfold bind at 1. unfold PdSort.head.
  rewrite slice_to_map, Hl'. reflexivity.
Qed.

Lemma user_based_unknown (g : Globals) (user : string) (n : Z) :
  ~ In user (index (user_item_matrix g)) ->
  user_based_recommendation g user n = Ok [].
Proof.
  intros H. unfold user_based_recommendation.
  now rewrite (proj2 (mem_not_In _ _) H).
Qed.

Lemma item_based_unknown (g : Globals) (restaurant : string) (n : Z) :
  ~ In restaurant (columns (user_item_matrix g)) ->
  item_based_recommendation g restaurant n = Ok [].
Proof.
  intros H. unfold item_based_recommendation.
  now rewrite (proj2 (mem_not_In _ _) H).
Qed.

(** What [item_based_recommendation] returns for a known restaurant. *)
Lemma item_based_known (d : list Row) (restaurant : string) (n : Z) :
  In restaurant (columns (counts_of d)) ->
  exists sims,
    similar_items (globals_of d) restaurant = Ok (top_neighbours sims)
    /\ List.length sims = List.length (columns (counts_of d))
    /\ item_based_recommendation (globals_of d) restaurant n
       = Ok (Py.slice_to n
               (map (fun p => nth p (columns (counts_of d)) EmptyString)
                    (top_neighbours sims))).
Proof.
  intros Hr.
  destruct (similar_items_Ok d restaurant Hr) as [i [sims [Hi [Hs [Hlen Esi]]]]].
  exists sims. repeat split; try assumption.
  unfold item_based_recommendation.
  change (columns (user_item_matrix (globals_of d)))
    with (columns (counts_of d)).
  rewrite (proj2 (mem_In _ _) Hr). simpl negb. cbv iota.
  rewrite Esi. unfold bind at 1.
  rewrite (take_Ok _ _ EmptyString).
  - reflexivity.
  - intros p Hp. apply top_neighbours_bound in Hp. lia.
Qed.

Lemma map_nth_NoDup {A} (l : list A) (d : A) (ps : list nat) :
  NoDup l -> NoDup ps -> (forall p, In p ps -> p < List.length l) ->
  NoDup (map (fun p => nth p l d) ps).
Proof.
  intros Hl Hps. induction Hps as [|p ps Hp Hps IH]; intros Hb; simpl.
  - constructor.
  - constructor.
    + intros Hin. apply in_map_iff in Hin. destruct Hin as [q [Eq Hq]].
      assert (q = p).
      { apply (proj1 (NoDup_nth l d) Hl).
        - apply Hb. now right.
        - apply Hb. now left.
        - exact Eq. }
      subst q. contradiction.
    + apply IH. intros q Hq. apply Hb. now right.
Qed.

Lemma positive_iff (x : string) (w : Qc) :
  positive (x, w) = true <-> (0 < w)%Qc.
Proof.
  unfold positive. simpl. rewrite negb_true_iff.
  unfold Qclt. simpl.
  destruct (Qle_bool w 0) eqn:E.
  - apply Qle_bool_iff in E. split; [discriminate|].
    intros H. exfalso. apply (Qlt_not_le _ _ H E).
  - split; [|reflexivity]. intros _. apply Qnot_le_lt.
    intros H. apply Qle_bool_iff in H. congruence.
Qed.

Lemma raw_counts_pos (d : list Row) (u : string) :
  In u (index (counts_of d)) -> (1 <= Zsum (raw_counts d u))%Z.
Proof.
  intros Hu.
  pose proof (counts_of_row_sums d) as H. rewrite Forall_forall in H.
  apply H. unfold Pd.sum_axis1. apply in_map_iff.
  exists (raw_counts d u). split; [reflexivity|].
  unfold counts_of at 1, Pd.pivot_table. simpl.
  apply in_map_iff. exists u. split; [reflexivity | exact Hu].
Qed.


(** * The claims *)

(** C1, on the code.  For the scenario of the specification the module
    loads, but the matrix it builds has the two rows alice (A: 1/2, B: 0,
    C: 1/2) and bob (A: 0, B: 1, C: 0): the exploded rows are matched
    with the restaurant names by position, carol's row is dropped, and
    [user_based_recommendation "alice" 1] returns B. *)
Theorem C1_scenario_on_code :
  exists g,
    load scenario = Ok g
    /\ index (user_item_matrix g) = ["alice"; "bob"]
    /\ columns (user_item_matrix g) = ["A"; "B"; "C"]
    /\ fractions (user_item_matrix g)
       = [[1 # 2; 0; 1 # 2]; [0; 1; 0]]%Q
    /\ user_based_recommendation g "alice" 1 = Ok ["B"].
Proof.
  exists (globals_of scenario).
  split; [apply load_Ok; discriminate|].
  repeat split; vm_compute; reflexivity.
Qed.

(** C2.  After a successful load the matrix has one row of values per
    row label, every row label has a raw count of at least 1, and the
    entries of every row sum to 1 (exactly, hence within any
    tolerance). *)
Theorem C2_rows_sum_to_one (d : list Row) (g : Globals) :
  load d = Ok g ->
  List.length (values (user_item_matrix g))
  = List.length (index (user_item_matrix g))
  /\ (forall u, In u (index (user_item_matrix g)) ->
                (1 <= Zsum (raw_counts d u))%Z)
  /\ Forall (fun row => Qcsum row = 1%Qc) (values (user_item_matrix g)).
Proof.
  intros H. apply load_inv in H. destruct H as [_ ->]. split; [|split].
  - apply (weights_shape d).
  - intros u Hu. now apply raw_counts_pos.
  - apply weights_row_sums.
Qed.

Lemma C2_rows_sum_to_one_witness :
  List.length (values (user_item_matrix (globals_of scenario)))
  = List.length (index (user_item_matrix (globals_of scenario)))
  /\ (forall u, In u (index (user_item_matrix (globals_of scenario))) ->
                (1 <= Zsum (raw_counts scenario u))%Z)
  /\ Forall (fun row => Qcsum row = 1%Qc)
            (values (user_item_matrix (globals_of scenario))).
Proof.
  apply (C2_rows_sum_to_one scenario (globals_of scenario)).
  vm_compute. reflexivity.
Defined.

(** C3.  For a user of the matrix and any [n],
    [user_based_recommendation] returns a list, and no restaurant of
    the list has a weight greater than 0 in the user's row. *)
Theorem C3_never_recommends_liked (d : list Row) (g : Globals)
  (user : string) (n : Z) :
  load d = Ok g ->
  In user (index (user_item_matrix g)) ->
  exists row recs,
    Pd.loc (user_item_matrix g) user = Ok row
    /\ user_based_recommendation g user n = Ok recs
    /\ forall x w, In x recs -> In (x, w) row -> ~ (0 < w)%Qc.
Proof.
  intros H Hu. apply load_inv in H. destruct H as [_ ->].
  destruct (user_based_known d user n Hu) as [this [row [E [_ Eloc]]]].
  exists row. eexists. split; [exact Eloc|]. split; [exact E|].
  intros x w Hx Hw Hpos.
  apply slice_to_In, difference_In in Hx. destruct Hx as [_ Hx].
  apply Hx. apply in_map_iff. exists (x, w). split; [reflexivity|].
  apply filter_In. split; [exact Hw|]. now apply positive_iff.
Qed.

Lemma C3_never_recommends_liked_witness :
  exists row recs,
    Pd.loc (user_item_matrix (globals_of scenario)) "alice" = Ok row
    /\ user_based_recommendation (globals_of scenario) "alice" 3 = Ok recs
    /\ forall x w, In x recs -> In (x, w) row -> ~ (0 < w)%Qc.
Proof.
  apply (C3_never_recommends_liked scenario (globals_of scenario) "alice" 3).
  - vm_compute. reflexivity.
  - vm_compute. left. reflexivity.
Defined.

(** C4.  A user that is not a row label and a restaurant that is not a
    column label both get the empty list, without an exception. *)
Theorem C4_unknown_key_empty (g : Globals) (user restaurant : string)
  (n : Z) :
  ~ In user (index (user_item_matrix g)) ->
  ~ In restaurant (columns (user_item_matrix g)) ->
  user_based_recommendation g user n = Ok []
  /\ item_based_recommendation g restaurant n = Ok [].
Proof.
  intros Hu Hr. split.
  - now apply user_based_unknown.
  - now apply item_based_unknown.
Qed.

Lemma C4_unknown_key_empty_witness :
  user_based_recommendation (globals_of scenario) "dave" 3 = Ok []
  /\ item_based_recommendation (globals_of scenario) "Z" 3 = Ok [].
Proof.
  apply (C4_unknown_key_empty (globals_of scenario) "dave" "Z" 3).
  - vm_compute. intuition discriminate.
  - vm_compute. intuition discriminate.
Defined.

(** C5, on the code.  The window [1:6] drops whatever position is
    ranked first, which need not be the queried entity.  With two
    restaurants referred by the same user the item similarities are all
    1, the queries for A and for B sort equal rows, and both return A:
    [item_based_recommendation "A"] returns A itself.  With two users
    who refer the same restaurant the user similarities are all 1 and
    alice (position 0) is the similar user selected for alice, as for
    bob. *)
Theorem C5_self_is_selected :
  (exists g,
      load twin_items = Ok g
      /\ columns (user_item_matrix g) = ["A"; "B"]
      /\ nth_error (item_similarity g) 0 = nth_error (item_similarity g) 1
      /\ item_based_recommendation g "A" 3 = Ok ["A"]
      /\ item_based_recommendation g "B" 3 = Ok ["A"])
  /\ (exists g,
         load twin_users = Ok g
         /\ index (user_item_matrix g) = ["alice"; "bob"]
         /\ nth_error (user_similarity g) 0 = nth_error (user_similarity g) 1
         /\ similar_users g "alice" = Ok [0]
         /\ similar_users g "bob" = Ok [0]).
Proof.
  split.
  - exists (globals_of twin_items).
    split; [apply load_Ok; discriminate|].
    repeat split; vm_compute; reflexivity.
  - exists (globals_of twin_users).
    split; [apply load_Ok; discriminate|].
    repeat split; vm_compute; reflexivity.
Qed.

(** C7.  For a known restaurant and [n > 5],
    [item_based_recommendation] returns at most 5 names. *)
Theorem C7_at_most_five (d : list Row) (g : Globals) (restaurant : string)
  (n : Z) :
  load d = Ok g ->
  In restaurant (columns (user_item_matrix g)) ->
  (5 < n)%Z ->
  exists recs,
    item_based_recommendation g restaurant n = Ok recs
    /\ List.length recs <= 5.
Proof.
  intros H Hr _. apply load_inv in H. destruct H as [_ ->].
  destruct (item_based_known d restaurant n Hr) as [sims [_ [_ E]]].
  eexists. split; [exact E|].
  eapply Nat.le_trans; [apply slice_to_length_le|].
  rewrite length_map. apply top_neighbours_length.
Qed.

Lemma C7_at_most_five_witness :
  exists recs,
    item_based_recommendation (globals_of scenario) "A" 7 = Ok recs
    /\ List.length recs <= 5.
Proof.
  apply (C7_at_most_five scenario (globals_of scenario) "A" 7).
  - vm_compute. reflexivity.
  - vm_compute. left. reflexivity.
  - reflexivity.
Defined.

(** C10.  For any string and any [n >= 0] both recommenders return a
    list of at most [n] names, without duplicates, all of them column
    labels of the matrix. *)
Theorem C10_well_formed (d : list Row) (g : Globals) (s : string) (n : Z) :
  load d = Ok g ->
  (0 <= n)%Z ->
  (exists recs,
      user_based_recommendation g s n = Ok recs
      /\ (Z.of_nat (List.length recs) <= n)%Z
      /\ NoDup recs
      /\ incl recs (columns (user_item_matrix g)))
  /\ (exists recs,
         item_based_recommendation g s n = Ok recs
         /\ (Z.of_nat (List.length recs) <= n)%Z
         /\ NoDup recs
         /\ incl recs (columns (user_item_matrix g))).
Proof.
  intros H Hn. apply load_inv in H. destruct H as [_ ->]. split.
  - destruct (in_dec string_dec s (index (counts_of d))) as [Hu|Hu].
    + destruct (user_based_known d s n Hu) as [this [row [E [Hincl _]]]].
      eexists. split; [exact E|]. split; [|split].
      * now apply slice_to_length_n.
      * apply slice_to_NoDup, difference_NoDup.
      * intros x Hx. apply slice_to_In, difference_In in Hx.
        apply Hincl. exact (proj1 Hx).
    + exists []. split; [now apply user_based_unknown|].
      split; [simpl; lia|]. split; [constructor | intros x []].
  - destruct (in_dec string_dec s (columns (counts_of d))) as [Hr|Hr].
    + destruct (item_based_known d s n Hr) as [sims [_ [Hlen E]]].
      eexists. split; [exact E|]. split; [|split].
      * now apply slice_to_length_n.
      * apply slice_to_NoDup, map_nth_NoDup.
        -- apply columns_NoDup.
        -- apply top_neighbours_NoDup.
        -- intros p Hp. apply top_neighbours_bound in Hp. lia.
      * intros x Hx. apply slice_to_In, in_map_iff in Hx.
        destruct Hx as [p [<- Hp]]. apply top_neighbours_bound in Hp.
        apply nth_In.
        change (columns (user_item_matrix (globals_of d)))
          with (columns (counts_of d)). lia.
    + exists []. split; [now apply item_based_unknown|].
      split; [simpl; lia|]. split; [constructor | intros x []].
Qed.

Lemma C10_well_formed_witness :
  (exists recs,
      user_based_recommendation (globals_of scenario) "alice" 2 = Ok recs
      /\ (Z.of_nat (List.length recs) <= 2)%Z
      /\ NoDup recs
      /\ incl recs (columns (user_item_matrix (globals_of scenario))))
  /\ (exists recs,
         item_based_recommendation (globals_of scenario) "alice" 2 = Ok recs
         /\ (Z.of_nat (List.length recs) <= 2)%Z
         /\ NoDup recs
         /\ incl recs (columns (user_item_matrix (globals_of scenario)))).
Proof.
  apply (C10_well_formed scenario (globals_of scenario) "alice" 2).
  - vm_compute. reflexivity.
  - vm_compute. discriminate.
Defined.

(** * Similarity matrices *)

Lemma dot_comm (a b : list Qc) : Sk.dot a b = Sk.dot b a.
Proof.
  unfold Sk.dot. revert b.
  induction a as [|x a IH]; intros [|y b]; simpl; try reflexivity.
  rewrite IH. f_equal. apply Qcmult_comm.
Qed.

Lemma scaled_dot_comm (a b : Scaled) : Sk.scaled_dot a b = Sk.scaled_dot b a.
Proof.
  unfold Sk.scaled_dot. f_equal.
  - apply dot_comm.
  - apply Qcmult_comm.
Qed.

Lemma gram_entry (N : list Scaled) (i j : nat) :
  entry (Sk.gram N) i j
  = match nth_error N i, nth_error N j with
    | Some a, Some b => Some (Sk.scaled_dot a b)
    | _, _ => None
    end.
Proof.
  unfold entry, Sk.gram. rewrite nth_error_map.
  destruct (nth_error N i) as [a|]; simpl; [|reflexivity].
  rewrite nth_error_map. now destruct (nth_error N j).
Qed.

Lemma gram_symmetric (N : list Scaled) (i j : nat) :
  entry (Sk.gram N) i j = entry (Sk.gram N) j i.
Proof.
  rewrite !gram_entry.
  destruct (nth_error N i), (nth_error N j); try reflexivity.
  f_equal. apply scaled_dot_comm.
Qed.

Lemma gram_entry_defined (N : list Scaled) (i j : nat) :
  i < List.length N -> j < List.length N ->
  exists s, entry (Sk.gram N) i j = Some s.
Proof.
  intros Hi Hj. rewrite gram_entry.
  destruct (nth_error N i) eqn:Ei; [|apply nth_error_None in Ei; lia].
  destruct (nth_error N j) eqn:Ej; [|apply nth_error_None in Ej; lia].
  eexists. reflexivity.
Qed.

(** C8.  Both similarity matrices are symmetric: the entries at [i, j]
    and at [j, i] are the same number, and they are defined whenever
    both positions are positions of the matrix. *)
Theorem C8_similarity_symmetric (d : list Row) (g : Globals) (i j : nat) :
  load d = Ok g ->
  entry (user_similarity g) i j = entry (user_similarity g) j i
  /\ entry (item_similarity g) i j = entry (item_similarity g) j i
  /\ (i < List.length (index (user_item_matrix g)) ->
      j < List.length (index (user_item_matrix g)) ->
      exists s, entry (user_similarity g) i j = Some s)
  /\ (i < List.length (columns (user_item_matrix g)) ->
      j < List.length (columns (user_item_matrix g)) ->
      exists s, entry (item_similarity g) i j = Some s).
Proof.
  intros H. apply load_inv in H. destruct H as [_ ->].
  split; [apply gram_symmetric|]. split; [apply gram_symmetric|].
  pose proof (weights_shape d) as Hs.
  pose proof (transpose_shape _ _ _ Hs) as Ht.
  destruct Hs as [Hs _]. destruct Ht as [Ht _].
  change (index (user_item_matrix (globals_of d)))
    with (index (counts_of d)).
  change (columns (user_item_matrix (globals_of d)))
    with (columns (counts_of d)).
  split; intros Hi Hj; apply gram_entry_defined;
    rewrite normalize_length; lia.
Qed.

Lemma C8_similarity_symmetric_witness :
  let g := globals_of scenario in
  entry (user_similarity g) 0 1 = entry (user_similarity g) 1 0
  /\ entry (item_similarity g) 0 1 = entry (item_similarity g) 1 0
  /\ (0 < List.length (index (user_item_matrix g)) ->
      1 < List.length (index (user_item_matrix g)) ->
      exists s, entry (user_similarity g) 0 1 = Some s)
  /\ (0 < List.length (columns (user_item_matrix g)) ->
      1 < List.length (columns (user_item_matrix g)) ->
      exists s, entry (item_similarity g) 0 1 = Some s).
Proof.
  apply (C8_similarity_symmetric scenario (globals_of scenario) 0 1).
  vm_compute. reflexivity.
Defined.

(** * Similarities as real numbers *)

Section RealSimilarity.
Local Open Scope R_scope.

Lemma Q2R_Qcplus (x y : Qc) : Q2R (x + y)%Qc = Q2R x + Q2R y.
Proof.
unfold Qcplus. cbn [this Q2Qc].
rewrite (Qeq_eqR _ _ (Qred_correct _)). apply Q2R_plus.
Qed.

Lemma Q2R_Qcmult (x y : Qc) : Q2R (x * y)%Qc = Q2R x * Q2R y.
Proof.
unfold Qcmult. cbn [this Q2Qc].
rewrite (Qeq_eqR _ _ (Qred_correct _)). apply Q2R_mult.
Qed.

Lemma Q2R_Qc0 : Q2R 0%Qc = 0.
Proof. unfold Q2R. simpl. lra. Qed.

Lemma Q2R_Qc1 : Q2R 1%Qc = 1.
Proof. unfold Q2R. simpl. lra. Qed.

Lemma Q2R_Qc_eq0 (x : Qc) : Q2R x = 0 -> x = 0%Qc.
Proof.
intros H. apply Qc_is_canon. apply eqR_Qeq.
rewrite H. symmetry. apply Q2R_Qc0.
Qed.

Lemma Q2R_dot (a b : list Qc) : Q2R (Sk.dot a b) = dotR (toR a) (toR b).
Proof.
unfold Sk.dot, Qcsum, dotR, toR. revert b.
induction a as [|x a IH]; intros [|y b];
  cbn [combine map fold_right fst snd]; try apply Q2R_Qc0.
rewrite Q2R_Qcplus, Q2R_Qcmult. f_equal. apply IH.
Qed.

Lemma dotR_self_nonneg (a : list R) : 0 <= dotR a a.
Proof.
unfold dotR. induction a as [|x a IH]; simpl; [lra|]. nra.
Qed.

Lemma dotR_nonneg (a b : list R) :
Forall (fun x => 0 <= x) a -> Forall (fun x => 0 <= x) b -> 0 <= dotR a b.
Proof.
unfold dotR. intros Ha. revert b.
induction Ha as [|x a Hx Ha IH]; intros b Hb; simpl; [lra|].
destruct Hb as [|y b Hy Hb]; simpl; [lra|].
specialize (IH b Hb). nra.
Qed.

Lemma Cauchy_Schwarz (a b : list R) :
dotR a b * dotR a b <= dotR a a * dotR b b.
Proof.
revert b. induction a as [|x a IH]; intros b.
- unfold dotR. simpl. lra.
- destruct b as [|y b].
  + unfold dotR at 1 2 4. simpl. lra.
  + specialize (IH b).
    pose proof (dotR_self_nonneg a) as HA.
    pose proof (dotR_self_nonneg b) as HB.
    unfold dotR in *. simpl.
    set (D := fold_right Rplus 0 (map (fun xy => fst xy * snd xy) (combine a b))) in *.
    set (A := fold_right Rplus 0 (map (fun xy => fst xy * snd xy) (combine a a))) in *.
    set (B := fold_right Rplus 0 (map (fun xy => fst xy * snd xy) (combine b b))) in *.
    assert (H2 : 2 * (x * y) * D <= x * x * B + y * y * A).
    { destruct (Rle_dec 0 (2 * (x * y) * D)) as [Hp|Hn]; [|nra].
      apply Rsqr_incr_0_var; [|nra]. unfold Rsqr.
      pose proof (Rle_0_sqr (x * x * B - y * y * A)) as Hsq.
      unfold Rsqr in Hsq.
      assert (Hxy : 0 <= (x * y) * (x * y)) by nra.
      assert (Hm : 0 <= (x * y) * (x * y) * (A * B - D * D)) by
        (apply Rmult_le_pos; lra).
      nra. }
    nra.
Qed.

Lemma Qc_eq_bool_true (x y : Qc) : x = y -> Qc_eq_bool x y = true.
Proof.
intros ->. unfold Qc_eq_bool. now destruct (Qc_eq_dec y y).
Qed.

Lemma handle_zeros_zero : Sk.handle_zeros_in_scale 0%Qc = 1%Qc.
Proof. reflexivity. Qed.

Lemma handle_zeros_nonzero (s : Qc) :
s <> 0%Qc -> Sk.handle_zeros_in_scale s = s.
Proof.
intros H. unfold Sk.handle_zeros_in_scale.
destruct (Qc_eq_bool s 0) eqn:E; [|reflexivity].
apply Qc_eq_bool_correct in E. contradiction.
Qed.

Lemma normR_zero (a : list R) : normR a = 0 <-> dotR a a = 0.
Proof.
unfold normR. split.
- apply sqrt_eq_0, dotR_self_nonneg.
- intros ->. apply sqrt_0.
Qed.

Lemma dotR_zero_l (a b : list R) : dotR a a = 0 -> dotR a b = 0.
Proof.
intros H. pose proof (Cauchy_Schwarz a b) as CS. rewrite H in CS. nra.
Qed.

Lemma dotR_comm (a b : list R) : dotR a b = dotR b a.
Proof.
unfold dotR. revert b.
induction a as [|x a IH]; intros [|y b]; simpl; try reflexivity.
rewrite IH. lra.
Qed.

Lemma toR_nonneg (a : list Qc) :
Forall (fun x => (0 <= x)%Qc) a -> Forall (fun x => 0 <= x) (toR a).
Proof.
intros H. unfold toR. rewrite Forall_map.
eapply Forall_impl; [|exact H].
intros x Hx. simpl. rewrite <- Q2R_Qc0. now apply Qle_Rle.
Qed.

Lemma cosine_formula (a b : list Qc) :
normR (toR a) <> 0 -> normR (toR b) <> 0 ->
Surd2R (cosine a b)
= dotR (toR a) (toR b) / (normR (toR a) * normR (toR b)).
Proof.
intros Ha Hb.
assert (HA : Sk.dot a a <> 0%Qc).
{ intros E. apply Ha, normR_zero. rewrite <- Q2R_dot, E. apply Q2R_Qc0. }
assert (HB : Sk.dot b b <> 0%Qc).
{ intros E. apply Hb, normR_zero. rewrite <- Q2R_dot, E. apply Q2R_Qc0. }
unfold cosine, Sk.scaled_dot, Surd2R. cbn [num rad coords scale2].
rewrite !handle_zeros_nonzero by assumption.
rewrite Q2R_Qcmult, !Q2R_dot.
rewrite sqrt_mult by apply dotR_self_nonneg.
reflexivity.
Qed.

Lemma cosine_zero_norm (a b : list Qc) :
normR (toR a) = 0 \/ normR (toR b) = 0 -> Surd2R (cosine a b) = 0.
Proof.
intros H.
assert (E : dotR (toR a) (toR b) = 0).
{ destruct H as [H|H]; apply normR_zero in H.
  - now apply dotR_zero_l.
  - rewrite dotR_comm. now apply dotR_zero_l. }
unfold cosine, Sk.scaled_dot, Surd2R. cbn [num rad coords scale2].
rewrite Q2R_dot, E. unfold Rdiv. apply Rmult_0_l.
Qed.

Lemma cosine_range (a b : list Qc) : -1 <= Surd2R (cosine a b) <= 1.
Proof.
destruct (Req_dec (normR (toR a)) 0) as [Ha|Ha].
{ rewrite cosine_zero_norm by now left. lra. }
destruct (Req_dec (normR (toR b)) 0) as [Hb|Hb].
{ rewrite cosine_zero_norm by now right. lra. }
rewrite cosine_formula by assumption.
pose proof (Cauchy_Schwarz (toR a) (toR b)) as CS.
pose proof (dotR_self_nonneg (toR a)) as HA.
pose proof (dotR_self_nonneg (toR b)) as HB.
unfold normR in *.
set (D := dotR (toR a) (toR b)) in *.
set (A := dotR (toR a) (toR a)) in *.
set (B := dotR (toR b) (toR b)) in *.
assert (HsA : 0 < sqrt A).
{ pose proof (sqrt_pos A). lra. }
assert (HsB : 0 < sqrt B).
{ pose proof (sqrt_pos B). lra. }
assert (HS : 0 < sqrt A * sqrt B) by now apply Rmult_lt_0_compat.
assert (Habs : Rabs D <= sqrt A * sqrt B).
{ rewrite <- sqrt_mult by assumption.
  rewrite <- sqrt_Rsqr_abs. apply sqrt_le_1_alt. exact CS. }
assert (Hb2 : - (sqrt A * sqrt B) <= D <= sqrt A * sqrt B).
{ unfold Rabs in Habs. destruct (Rcase_abs D); lra. }
pose proof (Rinv_0_lt_compat _ HS) as Hinv.
assert (E1 : sqrt A * sqrt B * / (sqrt A * sqrt B) = 1).
{ apply Rinv_r. lra. }
unfold Rdiv. nra.
Qed.

Lemma cosine_nonneg (a b : list Qc) :
Forall (fun x => (0 <= x)%Qc) a -> Forall (fun x => (0 <= x)%Qc) b ->
0 <= Surd2R (cosine a b).
Proof.
intros Ha Hb.
pose proof (dotR_nonneg _ _ (toR_nonneg a Ha) (toR_nonneg b Hb)) as HD.
unfold cosine, Sk.scaled_dot, Surd2R. cbn [num rad coords scale2].
rewrite Q2R_dot. unfold Rdiv.
apply Rmult_le_pos; [exact HD|].
destruct (Req_dec (sqrt (Q2R (Sk.handle_zeros_in_scale (Sk.dot a a)
                              * Sk.handle_zeros_in_scale (Sk.dot b b))%Qc)) 0)
  as [E|E].
- rewrite E, Rinv_0. lra.
- apply Rlt_le, Rinv_0_lt_compat.
  pose proof (sqrt_pos (Q2R (Sk.handle_zeros_in_scale (Sk.dot a a)
                              * Sk.handle_zeros_in_scale (Sk.dot b b))%Qc)).
  lra.
Qed.

Lemma combine_map_self {A B} (f : A -> B) (l : list A) :
combine l (map f l) = map (fun x => (x, f x)) l.
Proof.
induction l as [|x l IH]; simpl; [reflexivity|]. now rewrite IH.
Qed.

Lemma normalize_nth (X : list (list Qc)) (i : nat) (a : list Qc) :
nth_error X i = Some a ->
nth_error (Sk.normalize X) i
= Some (mkScaled a (Sk.handle_zeros_in_scale (Sk.dot a a))).
Proof.
intros H. unfold Sk.normalize, Sk.row_norms_squared.
rewrite combine_map_self, map_map, nth_error_map, H. reflexivity.
Qed.

Lemma check_array_inv (X X' : list (list Qc)) :
Sk.check_array (map (map Some) X) = Ok X' -> X' = X.
Proof.
intros H.
assert (E : mapM (mapM Sk.finite) (map (map Some) X) = Ok X).
{ clear. induction X as [|r X IH]; simpl; [reflexivity|].
  rewrite mapM_finite. simpl. now rewrite IH. }
destruct X as [|[|x r] X]; simpl in H; try discriminate.
simpl in E. rewrite E in H. now injection H.
Qed.

Lemma cosine_similarity_entry (X : list (list Qc)) (K : list (list Surd))
(i j : nat) (a b : list Qc) :
Sk.cosine_similarity (map (map Some) X) = Ok K ->
nth_error X i = Some a -> nth_error X j = Some b ->
entry K i j = Some (cosine a b).
Proof.
unfold Sk.cosine_similarity. intros H Ha Hb.
destruct (Sk.check_array (map (map Some) X)) as [X'|] eqn:E;
  [|discriminate].
apply check_array_inv in E. subst X'.
simpl in H. injection H as <-.
rewrite gram_entry, (normalize_nth _ _ _ Ha), (normalize_nth _ _ _ Hb).
reflexivity.
Qed.

(** ** The similarities in binary64 *)

Section Binary64.
Local Open Scope float_scope.

(** The norm by which [normalize] divides is never zero. *)
Lemma handle_zeros_in_scale_nonzero (s : float) :
  (F64.handle_zeros_in_scale s =? 0) = false.
Proof.
  unfold F64.handle_zeros_in_scale.
  destruct (s =? 0) eqn:E; [reflexivity | exact E].
Qed.

Lemma finite_cases (y : float) :
  PrimFloat.is_finite y = true ->
  (exists s, Prim2SF y = S754_zero s)
  \/ (exists s m e, Prim2SF y = S754_finite s m e).
Proof.
  unfold PrimFloat.is_finite, PrimFloat.is_nan, PrimFloat.is_infinity.
  rewrite !FloatAxioms.eqb_spec, FloatAxioms.abs_spec.
  destruct (Prim2SF y) as [s| s | |s m e] eqn:E.
  - intros _. left. now exists s.
  - destruct s; cbn; discriminate.
  - cbn. discriminate.
  - intros _. right. now exists s, m, e.
Qed.

Lemma signed_zero (x : float) (s : bool) :
  Prim2SF x = S754_zero s -> x = 0 \/ x = -0.
Proof.
  intros E. rewrite <- (FloatAxioms.SF2Prim_Prim2SF x), E.
  destruct s; [right | left]; reflexivity.
Qed.

Lemma zero_times_finite (y : float) :
  PrimFloat.is_finite y = true -> 0 * y = 0 \/ 0 * y = -0.
Proof.
  intros H.
  destruct (finite_cases y H) as [[s E]|[s [m [e E]]]];
    apply (signed_zero _ s); rewrite FloatAxioms.mul_spec, E; reflexivity.
Qed.

Lemma finite_times_zero (y : float) :
  PrimFloat.is_finite y = true -> y * 0 = 0 \/ y * 0 = -0.
Proof.
  intros H.
  destruct (finite_cases y H) as [[s E]|[s [m [e E]]]];
    apply (signed_zero _ s); rewrite FloatAxioms.mul_spec, E;
    destruct s; reflexivity.
Qed.

Lemma dot_zero_l (n : nat) (b : list float) :
  Forall (fun y => PrimFloat.is_finite y = true) b ->
  F64.dot (repeat 0 n) b = 0.
Proof.
  unfold F64.dot. intros Hb. revert n.
  induction Hb as [|y b Hy Hb IH]; intros [|n]; try reflexivity.
  cbn [repeat combine fold_left fst snd].
  destruct (zero_times_finite y Hy) as [-> | ->]; apply IH.
Qed.

Lemma dot_zero_r (n : nat) (b : list float) :
  Forall (fun y => PrimFloat.is_finite y = true) b ->
  F64.dot b (repeat 0 n) = 0.
Proof.
  unfold F64.dot. intros Hb. revert n.
  induction Hb as [|y b Hy Hb IH]; intros [|n]; try reflexivity.
  cbn [repeat combine fold_left fst snd].
  destruct (finite_times_zero y Hy) as [-> | ->]; apply IH.
Qed.

Lemma all_zero_repeat (z : list float) :
  Forall (fun v => v = 0) z -> z = repeat 0 (List.length z).
Proof.
  induction 1 as [|v z -> _ IH]; cbn [List.length repeat]; [reflexivity|].
  now rewrite <- IH.
Qed.

Lemma repeat_zero_finite (n : nat) :
  Forall (fun y => PrimFloat.is_finite y = true) (repeat 0 n).
Proof. induction n; constructor; [reflexivity | assumption]. Qed.

(** A zero row is left as it is: its norm 0 is replaced by 1. *)
Lemma normalize_zero_row (n : nat) :
  map (fun v => v / F64.handle_zeros_in_scale
                     (PrimFloat.sqrt (F64.dot (repeat 0 n) (repeat 0 n))))
      (repeat 0 n)
  = repeat 0 n.
Proof.
  rewrite dot_zero_l by apply repeat_zero_finite.
  change (F64.handle_zeros_in_scale (PrimFloat.sqrt 0)) with 1.
  induction n as [|n IH]; cbn [repeat map]; [reflexivity|].
  rewrite IH. reflexivity.
Qed.

Lemma normalize_nth64 (X : list (list float)) (i : nat) (a : list float) :
  nth_error X i = Some a ->
  nth_error (F64.normalize X) i
  = Some (map (fun v => v / F64.handle_zeros_in_scale
                              (PrimFloat.sqrt (F64.dot a a))) a).
Proof.
  intros H. unfold F64.normalize, F64.row_norms.
  rewrite combine_map_self, map_map, nth_error_map, H. reflexivity.
Qed.

Lemma gram_entry64 (N : list (list float)) (i j : nat) :
  F64.entry (F64.gram N) i j
  = match nth_error N i, nth_error N j with
    | Some a, Some b => Some (F64.dot a b)
    | _, _ => None
    end.
Proof.
  unfold F64.entry, F64.gram. rewrite nth_error_map.
  destruct (nth_error N i) as [a|]; cbn [option_map]; [|reflexivity].
  rewrite nth_error_map. now destruct (nth_error N j).
Qed.

Lemma cosine_similarity64_inv (X K : list (list float)) :
  F64.cosine_similarity X = Ok K -> K = F64.gram (F64.normalize X).
Proof.
  unfold F64.cosine_similarity, F64.check_array. intros H.
  destruct X as [|[|x r] X]; try discriminate.
  destruct (forallb (forallb PrimFloat.is_finite) ((x :: r) :: X));
    [|discriminate].
  unfold bind in H. now injection H.
Qed.

(** In binary64 a zero row has similarity exactly 0, and not NaN, with
    every row whose normalized entries are finite. *)
Lemma zero_row_similarity64 (X K : list (list float)) (p q : nat)
  (z y : list float) :
  F64.cosine_similarity X = Ok K ->
  nth_error X p = Some z -> Forall (fun v => v = 0) z ->
  nth_error (F64.normalize X) q = Some y ->
  Forall (fun v => PrimFloat.is_finite v = true) y ->
  F64.entry K p q = Some 0 /\ F64.entry K q p = Some 0.
Proof.
  intros HK Hz Hzero Hy Hfin.
  apply cosine_similarity64_inv in HK. subst K.
  apply all_zero_repeat in Hzero.
  rewrite !gram_entry64, (normalize_nth64 _ _ _ Hz), Hy.
  rewrite Hzero, normalize_zero_row.
  now rewrite dot_zero_l, dot_zero_r.
Qed.

End Binary64.

Lemma handle_zeros_real_pos (a : list Qc) :
0 < Q2R (Sk.handle_zeros_in_scale (Sk.dot a a)).
Proof.
unfold Sk.handle_zeros_in_scale.
destruct (Qc_eq_bool (Sk.dot a a) 0) eqn:E.
- rewrite Q2R_Qc1. lra.
- pose proof (dotR_self_nonneg (toR a)) as H. rewrite <- Q2R_dot in H.
  destruct (Req_dec (Q2R (Sk.dot a a)) 0) as [Z|Z]; [|lra].
  apply Q2R_Qc_eq0 in Z. rewrite Z in E.
  rewrite Qc_eq_bool_true in E by reflexivity. discriminate.
Qed.

(** The divisor of a similarity is never zero. *)
Lemma cosine_divisor_pos (a b : list Qc) : 0 < sqrt (Q2R (rad (cosine a b))).
Proof.
unfold cosine, Sk.scaled_dot. cbn [rad scale2].
apply sqrt_lt_R0. rewrite Q2R_Qcmult.
apply Rmult_lt_0_compat; apply handle_zeros_real_pos.
Qed.

(** C9, as amended.  [cosine_similarity] divides every row by its norm,
  a zero norm being replaced by 1, and multiplies the normalized rows;
  the divisor of a similarity is never zero.  In exact arithmetic the
  similarity of two rows [a] and [b] is [dot(a,b) / (|a| * |b|)] when
  both norms are non-zero, is 0 when either norm is zero, lies between
  -1 and 1, and is at least 0 when no entry of the rows is negative.
  In binary64 the norm that divides a row is never zero, and a zero row
  has similarity exactly 0, not NaN, with every row whose normalized
  entries are finite; the other values are rounded. *)
Theorem C9_cosine_similarity (X : list (list Qc)) (K : list (list Surd))
(i j : nat) (a b : list Qc)
(X64 K64 : list (list float)) (p q : nat) (z y : list float) :
Sk.cosine_similarity (map (map Some) X) = Ok K ->
nth_error X i = Some a -> nth_error X j = Some b ->
F64.cosine_similarity X64 = Ok K64 ->
nth_error X64 p = Some z -> Forall (fun v => v = 0%float) z ->
nth_error (F64.normalize X64) q = Some y ->
Forall (fun v => PrimFloat.is_finite v = true) y ->
(exists s,
  entry K i j = Some s
  /\ 0 < sqrt (Q2R (rad s))
  /\ (normR (toR a) <> 0 -> normR (toR b) <> 0 ->
      Surd2R s = dotR (toR a) (toR b) / (normR (toR a) * normR (toR b)))
  /\ (normR (toR a) = 0 \/ normR (toR b) = 0 -> Surd2R s = 0)
  /\ -1 <= Surd2R s <= 1
  /\ (Forall (fun x => (0 <= x)%Qc) a ->
      Forall (fun x => (0 <= x)%Qc) b -> 0 <= Surd2R s))
/\ (forall n : float, (F64.handle_zeros_in_scale n =? 0)%float = false)
/\ F64.entry K64 p q = Some 0%float
/\ F64.entry K64 q p = Some 0%float.
Proof.
intros H Ha Hb H64 Hz Hzero Hy Hfin. split.
- exists (cosine a b).
  split; [eapply cosine_similarity_entry; eassumption|].
  split; [apply cosine_divisor_pos|].
  split; [apply cosine_formula|].
  split; [apply cosine_zero_norm|].
  split; [apply cosine_range | apply cosine_nonneg].
- split; [apply handle_zeros_in_scale_nonzero|].
  eapply zero_row_similarity64; eassumption.
Qed.

Lemma C9_cosine_similarity_witness :
(exists s,
  entry (Sk.gram (Sk.normalize zero_and_one)) 0 1 = Some s
  /\ 0 < sqrt (Q2R (rad s))
  /\ (normR (toR [0%Qc; 0%Qc]) <> 0 ->
      normR (toR [1%Qc; Qc_of_Z 2]) <> 0 ->
      Surd2R s = dotR (toR [0%Qc; 0%Qc]) (toR [1%Qc; Qc_of_Z 2])
                 / (normR (toR [0%Qc; 0%Qc])
                    * normR (toR [1%Qc; Qc_of_Z 2])))
  /\ (normR (toR [0%Qc; 0%Qc]) = 0
      \/ normR (toR [1%Qc; Qc_of_Z 2]) = 0 -> Surd2R s = 0)
  /\ -1 <= Surd2R s <= 1
  /\ (Forall (fun x => (0 <= x)%Qc) [0%Qc; 0%Qc] ->
      Forall (fun x => (0 <= x)%Qc) [1%Qc; Qc_of_Z 2] -> 0 <= Surd2R s))
/\ (forall n : float, (F64.handle_zeros_in_scale n =? 0)%float = false)
/\ F64.entry (F64.gram (F64.normalize zero_and_one64)) 0 1 = Some 0%float
/\ F64.entry (F64.gram (F64.normalize zero_and_one64)) 1 0 = Some 0%float.
Proof.
apply (C9_cosine_similarity zero_and_one (Sk.gram (Sk.normalize zero_and_one))
         0 1 [0%Qc; 0%Qc] [1%Qc; Qc_of_Z 2]
         zero_and_one64 (F64.gram (F64.normalize zero_and_one64)) 0 1
         [0; 0]%float (nth 1 (F64.normalize zero_and_one64) [])).
- reflexivity.
- reflexivity.
- reflexivity.
- reflexivity.
- reflexivity.
- repeat constructor.
- reflexivity.
- repeat constructor.
Defined.

(** C9, counterexample.  A user who refers A once, B twice and C once
    has the row [(0.25, 0.5, 0.25)]; in binary64 its similarity with
    itself is [1.0000000000000002], which is greater than 1. *)
Lemma C9_binary64_above_one :
  fractions (user_item_matrix (globals_of quarters))
  = [[1 # 4; 1 # 2; 1 # 4]]%Q
  /\ exists usim isim s,
       F64.similarities quarters = Ok (usim, isim)
       /\ F64.entry usim 0 0 = Some s
       /\ s = 0x1.0000000000001p+0%float
       /\ (1 <? s)%float = true.
Proof.
  split; [vm_compute; reflexivity|].
  exists [[0x1.0000000000001p+0%float]],
         [[1; 1; 1]; [1; 1; 1]; [1; 1; 1]]%float, 0x1.0000000000001p+0%float.
  repeat split; vm_compute; reflexivity.
Qed.

(** ** The comparison used by [argsort] *)

Lemma Q2R_Qcopp (x : Qc) : Q2R (- x)%Qc = - Q2R x.
Proof.
  unfold Qcopp. cbn [this Q2Qc].
  rewrite (Qeq_eqR _ _ (Qred_correct _)). apply Q2R_opp.
Qed.

Lemma Q2R_Qcdiv (x y : Qc) : y <> 0%Qc -> Q2R (x / y)%Qc = Q2R x / Q2R y.
Proof.
  intros Hy. unfold Qcdiv. rewrite Q2R_Qcmult. unfold Rdiv. f_equal.
  unfold Qcinv. cbn [this Q2Qc].
  rewrite (Qeq_eqR _ _ (Qred_correct _)). apply Q2R_inv.
  intros E. apply Hy. now apply Qc_is_canon.
Qed.

Lemma sign_square_mono (x y : R) : x * Rabs x <= y * Rabs y <-> x <= y.
Proof.
  unfold Rabs. destruct (Rcase_abs x), (Rcase_abs y); split; intros H; nra.
Qed.

Lemma Q2R_signed_square (s : Surd) :
  (0 < rad s)%Qc ->
  Q2R (Np.signed_square s) = Surd2R s * Rabs (Surd2R s).
Proof.
  intros Hr.
  assert (Hr0 : rad s <> 0%Qc).
  { intros E. rewrite E in Hr. now apply Qclt_not_eq in Hr. }
  assert (HrR : 0 < Q2R (rad s)).
  { rewrite <- Q2R_Qc0. now apply Qlt_Rlt. }
  pose proof (sqrt_lt_R0 _ HrR) as Hs.
  pose proof (sqrt_sqrt _ (Rlt_le _ _ HrR)) as Hss.
  unfold Np.signed_square, Surd2R.
  set (n := Q2R (num s)). set (q := sqrt (Q2R (rad s))) in *.
  assert (Hq : / q * / q = / Q2R (rad s)).
  { rewrite <- Rinv_mult. now rewrite Hss. }
  destruct (Qle_bool 0 (num s)) eqn:E.
  - apply Qle_bool_iff, Qle_Rle in E. fold n in E.
    change (Q2R 0%Q) with (Q2R 0%Qc) in E. rewrite Q2R_Qc0 in E.
    rewrite Q2R_Qcdiv, Q2R_Qcmult by assumption. fold n.
    assert (Hx : 0 <= n / q).
    { unfold Rdiv. apply Rmult_le_pos; [lra|].
      apply Rlt_le. now apply Rinv_0_lt_compat. }
    rewrite (Rabs_right (n / q)) by lra.
    unfold Rdiv. rewrite <- Hq. ring.
  - assert (Hn : n < 0).
    { apply Rnot_le_lt. intros H. rewrite <- Q2R_Qc0 in H.
      apply Rle_Qle in H. apply Qle_bool_iff in H.
      change (Qle_bool 0 (num s) = true) in H. congruence. }
    rewrite Q2R_Qcopp, Q2R_Qcdiv, Q2R_Qcmult by assumption. fold n.
    assert (Hx : n / q < 0).
    { unfold Rdiv. pose proof (Rinv_0_lt_compat _ Hs). nra. }
    rewrite (Rabs_left (n / q)) by lra.
    unfold Rdiv. rewrite <- Hq. ring.
Qed.

(** [Surd_leb] decides the order of the values. *)
Lemma Surd_leb_spec (s t : Surd) :
  (0 < rad s)%Qc -> (0 < rad t)%Qc ->
  Np.Surd_leb s t = true <-> Surd2R s <= Surd2R t.
Proof.
  intros Hs Ht. unfold Np.Surd_leb.
  rewrite Qle_bool_iff, <- sign_square_mono.
  rewrite <- !Q2R_signed_square by assumption.
  split; [apply Qle_Rle | apply Rle_Qle].
Qed.

Lemma handle_zeros_pos (a : list Qc) :
  (0 < Sk.handle_zeros_in_scale (Sk.dot a a))%Qc.
Proof.
  unfold Sk.handle_zeros_in_scale.
  destruct (Qc_eq_bool (Sk.dot a a) 0) eqn:E; [reflexivity|].
  assert (Hne : Sk.dot a a <> 0%Qc).
  { intros H. rewrite (Qc_eq_bool_true _ _ H) in E. discriminate. }
  apply Rlt_Qlt. change (Q2R 0%Qc < Q2R (Sk.dot a a)).
  rewrite Q2R_Qc0, Q2R_dot.
  pose proof (dotR_self_nonneg (toR a)) as H.
  destruct H as [H|H]; [exact H|].
  exfalso. apply Hne, Q2R_Qc_eq0. now rewrite Q2R_dot.
Qed.

Lemma cosine_rad_pos (a b : list Qc) : (0 < rad (cosine a b))%Qc.
Proof.
  unfold cosine, Sk.scaled_dot. cbn [rad scale2].
  pose proof (handle_zeros_pos a) as Ha.
  pose proof (handle_zeros_pos b) as Hb.
  apply Rlt_Qlt. 
  change (Q2R 0%Qc < Q2R (Sk.handle_zeros_in_scale (Sk.dot a a)
                          * Sk.handle_zeros_in_scale (Sk.dot b b))%Qc).
  rewrite Q2R_Qc0, Q2R_Qcmult.
  apply Rmult_lt_0_compat; rewrite <- Q2R_Qc0; now apply Qlt_Rlt.
Qed.

End RealSimilarity.

(** * More of the matrix builder *)

(** ** Which pairs the pivot table counts *)

Lemma explode_users_from (s : nat) (col : list (list string)) :
  Forall (fun l => l <> []) col ->
  map snd
    (List.concat
       (map (fun il : nat * list string =>
               match snd il with
               | [] => [(fst il, None)]
               | us => map (fun u => (fst il, Some u)) us
               end)
            (combine (seq s (List.length col)) col)))
  = map Some (List.concat col).
Proof.
  intros H. revert s. induction H as [|l col Hl Hcol IH]; intros s.
  - reflexivity.
  - destruct l as [|u l]; [congruence|].
    cbn [List.length seq combine map List.concat snd fst].
    rewrite !map_app, IH. f_equal.
    cbn [map snd]. f_equal. rewrite map_map. reflexivity.
Qed.

Lemma pairs_users (referrers : list string) :
  map user (user_restaurant_pairs referrers)
  = map Some (List.concat (map (Py.split ","%char) referrers)).
Proof.
  unfold user_restaurant_pairs, Pd.explode. rewrite map_map.
  cbn [user]. 
  rewrite <- (explode_users_from 0).
  - reflexivity.
  - apply Forall_forall. intros l Hl. apply in_map_iff in Hl.
    destruct Hl as [r [<- _]]. apply split_not_nil.
Qed.

Lemma pairs_ratings (referrers : list string) :
  map rating (user_restaurant_pairs referrers)
  = repeat 1%Z (List.length (user_restaurant_pairs referrers)).
Proof.
  pose proof (pairs_rating referrers) as H.
  induction H as [|p l Hp Hl IH]; simpl; [reflexivity|].
  now rewrite Hp, IH.
Qed.

Lemma reindex_cons (k : string) (key : list string) (n : nat) :
  Pd.reindex (k :: key) (S n) = Some k :: Pd.reindex key n.
Proof.
  unfold Pd.reindex. cbn [seq map nth_error]. f_equal.
  rewrite <- seq_shift, map_map. reflexivity.
Qed.

Lemma reindex_nil (n : nat) : Pd.reindex [] n = repeat None n.
Proof.
  unfold Pd.reindex. generalize 0.
  induction n as [|n IH]; intros s; simpl; [reflexivity|].
  rewrite IH. now destruct s.
Qed.

Lemma dropna_keys_positional (us key : list string) :
  Pd.dropna_keys
    (combine (combine (map Some us) (Pd.reindex key (List.length us)))
             (repeat 1%Z (List.length us)))
  = map (fun un : string * string => (fst un, snd un, 1%Z)) (combine us key).
Proof.
  revert key. induction us as [|u us IH]; intros key.
  - reflexivity.
  - destruct key as [|k key].
    + rewrite reindex_nil. clear IH. simpl.
      induction us as [|u' us IH]; simpl; [reflexivity | exact IH].
    + cbn [List.length map]. rewrite reindex_cons. simpl. now rewrite IH.
Qed.

(** The pairs that the pivot table counts are positional: the k-th
    referrer token of the whole table goes with the k-th restaurant
    name, whatever record the token came from, and the tokens beyond
    the number of records are not counted. *)
Lemma groups_positional (d : list Row) :
  Pd.groups (user_restaurant_pairs (map referrer d)) (map shop_name d)
  = map (fun un : string * string => (fst un, snd un, 1%Z))
        (combine (exploded_users d) (map shop_name d)).
Proof.
  assert (Eu : List.concat (map (Py.split ","%char) (map referrer d))
               = exploded_users d).
  { unfold exploded_users. now rewrite map_map. }
  unfold Pd.groups. rewrite pairs_users, pairs_ratings, Eu.
  assert (E : List.length (user_restaurant_pairs (map referrer d))
              = List.length (exploded_users d)).
  { rewrite <- (length_map user), pairs_users, length_map. now rewrite Eu. }
  rewrite E. apply dropna_keys_positional.
Qed.


Lemma split_no_comma (s : string) :
  no_comma s = true -> Py.split ","%char s = [s].
Proof.
  unfold no_comma. induction s as [|c s IH]; simpl; [reflexivity|].
  intros H. apply andb_true_iff in H. destruct H as [Hc Hs].
  apply negb_true_iff in Hc. rewrite Hc, (IH Hs). reflexivity.
Qed.

Lemma exploded_users_length (d : list Row) :
  List.length d <= List.length (exploded_users d).
Proof.
  unfold exploded_users. induction d as [|r d IH]; simpl; [lia|].
  rewrite length_app.
  destruct (Py.split ","%char (referrer r)) eqn:E.
  - now apply split_not_nil in E.
  - simpl. lia.
Qed.

Lemma combine_firstn_length {A B} (l : list A) (l' : list B) :
  combine l l' = combine (firstn (List.length l') l) l'.
Proof.
  revert l'. induction l as [|a l IH]; intros [|b l']; simpl;
    try reflexivity.
  now rewrite <- IH.
Qed.

Lemma map_fst_groups (d : list Row) :
  map (fun r : string * string * Z => fst (fst r))
      (Pd.groups (user_restaurant_pairs (map referrer d)) (map shop_name d))
  = firstn (List.length d) (exploded_users d).
Proof.
  rewrite groups_positional, map_map. cbn [fst].
  rewrite combine_firstn_length, length_map.
  change (fun x : string * string => fst x) with (@fst string string).
  apply map_fst_combine.
  rewrite length_firstn, length_map.
  pose proof (exploded_users_length d). lia.
Qed.

Lemma map_snd_groups (d : list Row) :
  map (fun r : string * string * Z => snd (fst r))
      (Pd.groups (user_restaurant_pairs (map referrer d)) (map shop_name d))
  = map shop_name d.
Proof.
  rewrite groups_positional, map_map. cbn [fst snd].
  rewrite combine_firstn_length, length_map.
  change (fun x : string * string => snd x) with (@snd string string).
  apply map_snd_combine.
  rewrite length_firstn, length_map.
  pose proof (exploded_users_length d). lia.
Qed.

(** The labels of the matrix: the columns are the restaurant names of
    the table and the rows are the first [len(df)] referrer tokens, both
    made unique and sorted. *)
Lemma matrix_labels (d : list Row) (g : Globals) :
  load d = Ok g ->
  columns (user_item_matrix g)
  = sort String.leb (Pd.unique (map shop_name d))
  /\ index (user_item_matrix g)
     = sort String.leb
         (Pd.unique (firstn (List.length d) (exploded_users d))).
Proof.
  intros H. apply load_inv in H. destruct H as [_ ->].
  change (columns (user_item_matrix (globals_of d)))
    with (columns (counts_of d)).
  change (index (user_item_matrix (globals_of d)))
    with (index (counts_of d)).
  unfold counts_of, Pd.pivot_table. cbn [index columns].
  now rewrite map_fst_groups, map_snd_groups.
Qed.


(** Every restaurant of the table is a column of the matrix, so a
    restaurant chosen from [df['店名']] is never unknown to
    [item_based_recommendation]; and every user of the matrix is a
    token of some referrer field. *)
Lemma known_labels (d : list Row) (g : Globals) :
  load d = Ok g ->
  (forall c, In c (columns (user_item_matrix g)) <-> In c (map shop_name d))
  /\ (forall u, In u (index (user_item_matrix g)) ->
                exists r, In r d /\ In u (Py.split ","%char (referrer r))).
Proof.
  intros H. destruct (matrix_labels d g H) as [Ec Ei]. split.
  - intros c. rewrite Ec, sort_strings_In. apply unique_In.
  - intros u Hu. rewrite Ei in Hu.
    apply (proj1 (sort_strings_In _ _)) in Hu.
    apply (proj1 (unique_In _ _)) in Hu.
    apply In_firstn in Hu. unfold exploded_users in Hu.
    apply in_concat in Hu. destruct Hu as [l [Hl Hu]].
    apply in_map_iff in Hl. destruct Hl as [r [<- Hr]].
    exists r. now split.
Qed.


(** ** Tables with one referrer per record *)

Lemma exploded_users_singles (d : list Row) :
  Forall (fun r => no_comma (referrer r) = true) d ->
  exploded_users d = map referrer d.
Proof.
  unfold exploded_users. induction 1 as [|r d Hr Hd IH]; simpl.
  - reflexivity.
  - now rewrite (split_no_comma _ Hr), IH.
Qed.

Lemma combine_map_map {A B C} (f : A -> B) (h : A -> C) (l : list A) :
  combine (map f l) (map h l) = map (fun x => (f x, h x)) l.
Proof.
  induction l as [|x l IH]; simpl; [reflexivity | now rewrite IH].
Qed.

(** When no referrer field holds a comma the pivot table is the
    intended one: it counts, for every user and restaurant, the records
    with that referrer and that name. *)
Lemma single_referrer_counts (d : list Row) (u c : string) :
  Forall (fun r => no_comma (referrer r) = true) d ->
  Pd.agg_sum
    (Pd.groups (user_restaurant_pairs (map referrer d)) (map shop_name d))
    u c
  = Z.of_nat
      (List.length
         (filter (fun r => String.eqb (referrer r) u
                           && String.eqb (shop_name r) c) d)).
Proof.
  intros H.
  rewrite groups_positional, (exploded_users_singles d H), combine_map_map.
  rewrite map_map. cbn [fst snd]. unfold Pd.agg_sum.
  clear H. induction d as [|r d IH]; cbn [map filter fst snd].
  - reflexivity.
  - destruct (String.eqb (referrer r) u && String.eqb (shop_name r) c).
    + cbn [map snd Zsum fold_right List.length].
      unfold Zsum in IH. rewrite IH. lia.
    + exact IH.
Qed.


(** * Order of the labels *)

Lemma String_compare_trans (a b c : string) :
  String.compare a b <> Gt -> String.compare b c <> Gt ->
  String.compare a c <> Gt.
Proof.
  revert b c. induction a as [|x a IH]; intros [|y b] [|z c]; simpl;
    try congruence.
  unfold Ascii.compare.
  destruct (N.compare_spec (N_of_ascii x) (N_of_ascii y)) as [E1|E1|E1];
    destruct (N.compare_spec (N_of_ascii y) (N_of_ascii z)) as [E2|E2|E2];
    destruct (N.compare_spec (N_of_ascii x) (N_of_ascii z)) as [E3|E3|E3];
    try lia; try congruence.
  apply IH.
Qed.

Lemma String_leb_trans (a b c : string) :
  String.leb a b = true -> String.leb b c = true -> String.leb a c = true.
Proof.
  unfold String.leb. intros H1 H2.
  pose proof (String_compare_trans a b c) as H.
  destruct (String.compare a b), (String.compare b c),
    (String.compare a c); try reflexivity; try discriminate;
    exfalso; apply H; congruence.
Qed.

Lemma sort_strings_sorted (l : list string) :
  StronglySorted (fun a b => String.leb a b = true) (sort String.leb l).
Proof.
  apply sort_sorted.
  - apply String.leb_total.
  - apply String_leb_trans.
Qed.

(** Two sorted lists with the same elements are the same list. *)
Lemma sorted_perm_eq (l l' : list string) :
  StronglySorted (fun a b => String.leb a b = true) l ->
  StronglySorted (fun a b => String.leb a b = true) l' ->
  Permutation l l' -> l = l'.
Proof.
  intros Hl. revert l'. induction Hl as [|x l Hl IH Hx]; intros l' Hl' P.
  - apply Permutation_nil in P. now subst.
  - destruct Hl' as [|y l' Hl' Hy].
    + apply Permutation_sym, Permutation_nil in P. discriminate.
    + assert (E : x = y).
      { apply String.leb_antisym.
        - assert (Hin : In y (x :: l)).
          { apply (Permutation_in _ (Permutation_sym P)). now left. }
          destruct Hin as [->|Hin].
          + destruct (String.leb_total y y); assumption.
          + rewrite Forall_forall in Hx. now apply Hx.
        - assert (Hin : In x (y :: l')).
          { apply (Permutation_in _ P). now left. }
          destruct Hin as [->|Hin].
          + destruct (String.leb_total x x); assumption.
          + rewrite Forall_forall in Hy. now apply Hy. }
      subst y. f_equal. apply IH; [assumption|].
      eapply Permutation_cons_inv, P.
Qed.

Lemma sort_strings_id (l L : list string) :
  StronglySorted (fun a b => String.leb a b = true) L ->
  Permutation l L -> sort String.leb l = L.
Proof.
  intros HL P. apply sorted_perm_eq.
  - apply sort_strings_sorted.
  - exact HL.
  - eapply perm_trans; [apply sort_perm | exact P].
Qed.

Lemma filter_sorted {A} (R : A -> A -> Prop) (f : A -> bool) (l : list A) :
  StronglySorted R l -> StronglySorted R (filter f l).
Proof.
  induction 1 as [|x l Hl IH Hx]; simpl; [constructor|].
  destruct (f x); [|exact IH].
  constructor; [exact IH|].
  apply Forall_forall. intros y Hy. apply filter_In in Hy.
  rewrite Forall_forall in Hx. now apply Hx.
Qed.

Lemma filter_perm {A} (f : A -> bool) (l l' : list A) :
  Permutation l l' -> Permutation (filter f l) (filter f l').
Proof.
  induction 1 as [|x l l' P IH|x y l|l l' l'' P1 IH1 P2 IH2]; simpl.
  - constructor.
  - destruct (f x); [now constructor | exact IH].
  - destruct (f x), (f y); try apply Permutation_refl. apply perm_swap.
  - eapply perm_trans; eassumption.
Qed.

Lemma unique_id (l : list string) : NoDup l -> Pd.unique l = l.
Proof.
  induction 1 as [|x l Hx Hl IH]; simpl; [reflexivity|].
  rewrite IH. f_equal.
  apply forallb_filter_id. apply forallb_forall.
  intros y Hy. apply negb_true_iff, String.eqb_neq. congruence.
Qed.

(** The row labels and the column labels of the matrix are in ascending
    order and without duplicates. *)
Lemma labels_sorted (d : list Row) (g : Globals) :
  load d = Ok g ->
  StronglySorted (fun a b => String.leb a b = true)
                 (index (user_item_matrix g))
  /\ NoDup (index (user_item_matrix g))
  /\ StronglySorted (fun a b => String.leb a b = true)
                    (columns (user_item_matrix g))
  /\ NoDup (columns (user_item_matrix g)).
Proof.
  intros H. apply load_inv in H. destruct H as [_ ->].
  repeat split.
  - apply sort_strings_sorted.
  - apply index_NoDup.
  - apply sort_strings_sorted.
  - apply columns_NoDup.
Qed.


(** * What the user-based recommender returns *)

Lemma map_nth_seq {A} (l : list A) (d : A) :
  map (fun k => nth k l d) (seq 0 (List.length l)) = l.
Proof.
  induction l as [|x l IH]; simpl; [reflexivity|].
  f_equal. rewrite <- seq_shift, map_map. exact IH.
Qed.

Lemma flat_map_nth_error_seq {A} (l : list A) :
  flat_map (fun k => match nth_error l k with
                     | Some x => [x]
                     | None => []
                     end) (seq 0 (List.length l)) = l.
Proof.
  induction l as [|x l IH]; simpl; [reflexivity|].
  f_equal. rewrite <- seq_shift, flat_map_concat_map, map_map.
  rewrite <- flat_map_concat_map. exact IH.
Qed.

Lemma nan_partition (tagged : list (nat * option Qc)) :
  Permutation
    (map fst (flat_map (fun iv : nat * option Qc =>
                          match snd iv with
                          | Some q => [(fst iv, q)]
                          | None => []
                          end) tagged)
     ++ flat_map (fun iv : nat * option Qc =>
                    match snd iv with
                    | Some _ => []
                    | None => [fst iv]
                    end) tagged)
    (map fst tagged).
Proof.
  induction tagged as [|[i [q|]] t IH]; simpl.
  - constructor.
  - now constructor.
  - eapply perm_trans; [apply Permutation_sym, Permutation_middle|].
    now constructor.
Qed.

Lemma nargsort_perm (items : list (option Qc)) :
  Permutation (PdSort.nargsort_descending items)
              (seq 0 (List.length items)).
Proof.
  unfold PdSort.nargsort_descending, Py.reversed.
  set (tagged := combine (seq 0 (List.length items)) items).
  set (non_nan := flat_map (fun iv : nat * option Qc =>
                              match snd iv with
                              | Some q => [(fst iv, q)]
                              | None => []
                              end) tagged).
  set (nan_idx := flat_map (fun iv : nat * option Qc =>
                              match snd iv with
                              | Some _ => []
                              | None => [fst iv]
                              end) tagged).
  assert (Hidx : Permutation
                   (map (fun k => nth k (rev (map fst non_nan)) 0)
                        (Np.argsort PdSort.Qc_leb (rev (map snd non_nan))))
                   (rev (map fst non_nan))).
  { eapply perm_trans.
    - apply Permutation_map, argsort_perm.
    - rewrite length_rev, length_map, <- (length_map fst), <- length_rev.
      rewrite map_nth_seq. apply Permutation_refl. }
  eapply perm_trans.
  { apply Permutation_app_tail.
    eapply perm_trans; [apply Permutation_sym, Permutation_rev|].
    eapply perm_trans; [exact Hidx|].
    apply Permutation_sym, Permutation_rev. }
  eapply perm_trans; [apply nan_partition|].
  unfold tagged. rewrite map_fst_combine by apply length_seq.
  apply Permutation_refl.
Qed.

Lemma sort_values_perm (s : Series (option Qc)) :
  Permutation (PdSort.sort_values_descending s) s.
Proof.
  unfold PdSort.sort_values_descending.
  rewrite (nargsort_perm (map snd s)), length_map.
  rewrite flat_map_nth_error_seq. apply Permutation_refl.
Qed.

Lemma Qcsum_nonpos (l : list Qc) :
  Forall (fun w => (w <= 0)%Qc) l -> (Qcsum l <= 0)%Qc.
Proof.
  induction 1 as [|w l Hw Hl IH]; simpl.
  - apply Qcle_refl.
  - replace 0%Qc with (0 + 0)%Qc by apply Qcplus_0_l.
    now apply Qcplus_le_compat.
Qed.

(** A row that sums to 1 has a positive entry. *)
Lemma positive_entry (cols : list string) (r : list Qc) :
  List.length cols = List.length r -> Qcsum r = 1%Qc ->
  filter positive (combine cols r) <> [].
Proof.
  intros Hlen Hsum Hnil.
  assert (H : Forall (fun w => (w <= 0)%Qc) r).
  { apply Forall_forall. intros w Hw.
    destruct (Qclt_le_dec 0 w) as [Hpos|Hle]; [|exact Hle].
    exfalso.
    apply In_nth_error in Hw. destruct Hw as [k Hk].
    destruct (nth_error cols k) as [c|] eqn:Ec.
    - assert (Hin : In (c, w) (filter positive (combine cols r))).
      { apply filter_In. split; [|now apply positive_iff].
        apply (nth_error_In _ k).
        clear -Ec Hk. revert r k Ec Hk.
        induction cols as [|c' cols IH]; intros [|w' r] [|k] Ec Hk;
          simpl in *; try discriminate.
        - congruence.
        - now apply IH. }
      rewrite Hnil in Hin. contradiction.
    - apply nth_error_None in Ec.
      assert (k < List.length r) by (apply nth_error_Some; congruence).
      lia. }
  apply Qcsum_nonpos in H. rewrite Hsum in H.
  apply (Qcle_not_lt _ _ H). reflexivity.
Qed.

(** [user_based_recommendation] for a user of the matrix returns the
    first [n] restaurants, in the order of the column labels, among
    those without a positive weight in the user's row: the ranking by
    the similar users' mean weight is undone by [Index.difference],
    which sorts its result by label. *)
Lemma user_based_in_label_order (d : list Row) (g : Globals)
  (user : string) (n : Z) :
  load d = Ok g ->
  In user (index (user_item_matrix g)) ->
  exists row,
    Pd.loc (user_item_matrix g) user = Ok row
    /\ user_based_recommendation g user n
       = Ok (Py.slice_to n
               (filter (fun c => negb (Py.mem c (map fst (filter positive row))))
                       (columns (user_item_matrix g)))).
Proof.
  intros H Hu. apply load_inv in H. destruct H as [_ ->].
  change (index (user_item_matrix (globals_of d)))
    with (index (counts_of d)) in Hu.
  change (columns (user_item_matrix (globals_of d)))
    with (columns (counts_of d)).
  destruct (similar_users_Ok d user Hu) as [i [sims [Hi [Hs [Hlen Esu]]]]].
  pose proof (weights_shape d) as Hshape.
  assert (Etake : Pd.take (values (user_item_matrix (globals_of d)))
                          (top_neighbours sims)
                  = Ok (map (fun p => nth p (values (user_item_matrix
                                                       (globals_of d))) [])
                            (top_neighbours sims))).
  { apply take_Ok. intros p Hp. apply top_neighbours_bound in Hp.
    change (values (user_item_matrix (globals_of d)))
      with (normalized_rows (values (counts_of d))).
    destruct Hshape as [Hl _]. rewrite Hl. lia. }
  destruct (get_loc_In _ _ Hu) as [i' [Ei' [Hnth Hlt']]].
  destruct (rectangular_row _ _ _ _ Hshape Hlt') as [r [Er Hr]].
  assert (Eloc : Pd.loc (user_item_matrix (globals_of d)) user
                 = Ok (combine (columns (counts_of d)) r)).
  { unfold Pd.loc.
    change (index (user_item_matrix (globals_of d)))
      with (index (counts_of d)).
    change (values (user_item_matrix (globals_of d)))
      with (normalized_rows (values (counts_of d))).
    rewrite Ei'. unfold bind at 1. unfold Pd.at_pos. rewrite Er.
    reflexivity. }
  assert (Hsum : Qcsum r = 1%Qc).
  { pose proof (weights_row_sums d) as Hall. rewrite Forall_forall in Hall.
    eapply Hall, nth_error_In, Er. }
  set (rows := map (fun p => nth p (values (user_item_matrix
                                              (globals_of d))) [])
                   (top_neighbours sims)) in *.
  set (recs := PdSort.sort_values_descending
                 (Pd.mean (columns (counts_of d)) rows)).
  set (row := combine (columns (counts_of d)) r) in *.
  assert (Hperm : Permutation (map fst recs) (columns (counts_of d))).
  { unfold recs. rewrite (sort_values_perm _), mean_labels.
    apply Permutation_refl. }
  assert (Hliked : map fst (filter positive row) <> []).
  { intros E. apply map_eq_nil in E. revert E.
    apply positive_entry; [now rewrite Hr | exact Hsum]. }
  set (liked := map fst (filter positive row)) in *.
  assert (Ediff : PdSort.difference (map fst recs) liked
                  = filter (fun c => negb (Py.mem c liked))
                           (columns (counts_of d))).
  { unfold PdSort.difference. destruct liked as [|l0 liked']; [congruence|].
    set (f := fun x => negb (Py.mem x (l0 :: liked'))).
    rewrite unique_id.
    - apply sort_strings_id.
      + apply filter_sorted, sort_strings_sorted.
      + apply filter_perm, Hperm.
    - apply NoDup_filter.
      eapply Permutation_NoDup;
        [apply Permutation_sym, Hperm | apply columns_NoDup]. }
  destruct (getitem_Ok recs (PdSort.difference (map fst recs) liked))
    as [recs' [Eg Hl']].
  { intros x Hx. apply difference_In in Hx. exact (proj1 Hx). }
  exists row. split; [exact Eloc|].
  unfold user_based_recommendation.
  change (index (user_item_matrix (globals_of d)))
    with (index (counts_of d)).
  rewrite (proj2 (mem_In _ _) Hu). simpl negb. cbv iota.
  rewrite Esu. unfold bind at 1. rewrite Etake. unfold bind at 1.
  rewrite Eloc. unfold bind at 1.
  change (columns (user_item_matrix (globals_of d)))
    with (columns (counts_of d)).
  fold rows. fold recs. fold row. fold liked.
  rewrite Eg. unfold bind at 1. unfold PdSort.head.
  rewrite slice_to_map, Hl', Ediff. reflexivity.
Qed.


(** * More of the recommenders *)

(** The module loads exactly when the table has a record. *)
Lemma load_outcome (d : list Row) :
  (d = [] -> load d = Raise KeyError)
  /\ (d <> [] -> exists g, load d = Ok g /\ df g = d).
Proof.
  split.
  - intros ->. reflexivity.
  - intros Hd. exists (globals_of d). split; [now apply load_Ok|reflexivity].
Qed.

Lemma argsort_length {V} (leb : V -> V -> bool) (a : list V) :
  List.length (Np.argsort leb a) = List.length a.
Proof.
  rewrite (Permutation_length (argsort_perm leb a)). apply length_seq.
Qed.

Lemma top_neighbours_exact_length (sims : list Surd) :
  List.length (top_neighbours sims) = Nat.min 5 (List.length sims - 1).
Proof.
  unfold top_neighbours, Py.slice, Py.bound, Py.reversed.
  change (6 <? 0)%Z with false. change (1 <? 0)%Z with false.
  cbv iota. rewrite length_firstn, length_skipn, length_rev, argsort_length.
  assert (H6 : Z.to_nat 6 = 6) by reflexivity.
  assert (H1 : Z.to_nat 1 = 1) by reflexivity. lia.
Qed.

Lemma slice_to_exact_length {A} (n : Z) (l : list A) :
  (0 <= n)%Z ->
  List.length (Py.slice_to n l) = Nat.min (Z.to_nat n) (List.length l).
Proof.
  intros Hn. unfold Py.slice_to, Py.bound. rewrite length_firstn.
  destruct (Z.ltb_spec n 0); lia.
Qed.

(** For a known restaurant and [n >= 0], [item_based_recommendation]
    returns exactly [min(n, 5, number of restaurants - 1)] names. *)
Lemma item_based_count (d : list Row) (g : Globals) (restaurant : string)
  (n : Z) :
  load d = Ok g ->
  In restaurant (columns (user_item_matrix g)) ->
  (0 <= n)%Z ->
  exists recs,
    item_based_recommendation g restaurant n = Ok recs
    /\ List.length recs
       = Nat.min (Z.to_nat n)
           (Nat.min 5 (List.length (columns (user_item_matrix g)) - 1)).
Proof.
  intros H Hr Hn. apply load_inv in H. destruct H as [_ ->].
  destruct (item_based_known d restaurant n Hr) as [sims [_ [Hlen E]]].
  eexists. split; [exact E|].
  rewrite slice_to_exact_length by exact Hn.
  rewrite length_map, top_neighbours_exact_length, Hlen. reflexivity.
Qed.


(** Asking for more keeps what was returned for less. *)

Lemma slice_to_prefix {A} (n m : Z) (l : list A) :
  (0 <= n <= m)%Z ->
  exists rest, Py.slice_to m l = Py.slice_to n l ++ rest.
Proof.
  intros [Hn Hm]. unfold Py.slice_to, Py.bound.
  destruct (Z.ltb_spec n 0); [lia|]. destruct (Z.ltb_spec m 0); [lia|].
  set (a := Nat.min (Z.to_nat n) (List.length l)).
  set (b := Nat.min (Z.to_nat m) (List.length l)).
  assert (Hab : a <= b) by (unfold a, b; lia).
  exists (firstn (b - a) (skipn a l)).
  rewrite <- (firstn_skipn a l) at 1.
  rewrite firstn_app, length_firstn.
  replace (b - Nat.min a (List.length l)) with (b - a) by (unfold a; lia).
  f_equal. rewrite firstn_firstn. f_equal. lia.
Qed.

Lemma recommendations_grow_with_n (d : list Row) (g : Globals)
  (s : string) (n m : Z) :
  load d = Ok g ->
  (0 <= n <= m)%Z ->
  (exists l rest,
      user_based_recommendation g s n = Ok l
      /\ user_based_recommendation g s m = Ok (l ++ rest))
  /\ (exists l rest,
         item_based_recommendation g s n = Ok l
         /\ item_based_recommendation g s m = Ok (l ++ rest)).
Proof.
  intros H Hnm. pose proof H as Hload.
  apply load_inv in H. destruct H as [_ ->]. split.
  - destruct (in_dec string_dec s (index (counts_of d))) as [Hu|Hu].
    + destruct (user_based_in_label_order d _ s n Hload Hu)
        as [row1 [E1 R1]].
      destruct (user_based_in_label_order d _ s m Hload Hu)
        as [row2 [E2 R2]].
      rewrite E1 in E2. injection E2 as <-.
      destruct (slice_to_prefix n m
                  (filter (fun c => negb (Py.mem c (map fst (filter positive row1))))
                          (columns (user_item_matrix (globals_of d))))
                  Hnm) as [rest Hrest].
      eexists. exists rest. split; [exact R1|]. rewrite R2, Hrest.
      reflexivity.
    + exists [], []. split; now apply user_based_unknown.
  - destruct (in_dec string_dec s (columns (counts_of d))) as [Hr|Hr].
    + destruct (item_based_known d s n Hr) as [sims1 [S1 [_ E1]]].
      destruct (item_based_known d s m Hr) as [sims2 [S2 [_ E2]]].
      rewrite S1 in S2. injection S2 as S2.
      destruct (slice_to_prefix n m
                  (map (fun p => nth p (columns (counts_of d)) EmptyString)
                       (top_neighbours sims1)) Hnm) as [rest Hrest].
      eexists. exists rest. split; [exact E1|]. rewrite E2, <- S2, Hrest.
      reflexivity.
    + exists [], []. split; now apply item_based_unknown.
Qed.


(** ** The display of the recommendations *)

Lemma restaurant_info_Ok (d : list Row) (name : string) :
  In name (map shop_name d) ->
  exists r, restaurant_info d name = Ok r /\ shop_name r = name /\ In r d.
Proof.
  intros H. apply in_map_iff in H. destruct H as [r0 [E0 H0]].
  unfold restaurant_info, Pd.at_pos.
  destruct (filter (fun r => String.eqb (shop_name r) name) d)
    as [|r l] eqn:Ef.
  - assert (Hin : In r0 (filter (fun r => String.eqb (shop_name r) name) d)).
    { apply filter_In. split; [exact H0|]. rewrite E0.
      apply String.eqb_refl. }
    rewrite Ef in Hin. contradiction.
  - exists r. simpl. split; [reflexivity|].
    assert (Hin : In r (filter (fun r => String.eqb (shop_name r) name) d)).
    { rewrite Ef. now left. }
    apply filter_In in Hin. destruct Hin as [Hin E].
    apply String.eqb_eq in E. now split.
Qed.

Lemma restaurant_infos_Ok (d : list Row) (names : list string) :
  incl names (map shop_name d) ->
  exists infos,
    mapM (restaurant_info d) names = Ok infos
    /\ map shop_name infos = names
    /\ incl infos d.
Proof.
  induction names as [|x names IH]; intros Hincl.
  - exists []. repeat split. intros r [].
  - destruct IH as [infos [E [Hn Hi]]].
    { intros y Hy. apply Hincl. now right. }
    destruct (restaurant_info_Ok d x) as [r [Er [Hr Hin]]].
    { apply Hincl. now left. }
    exists (r :: infos). cbn [mapM]. rewrite Er. unfold bind at 1.
    rewrite E. unfold bind at 1. repeat split.
    + simpl. now rewrite Hr, Hn.
    + intros y [<-|Hy]; [exact Hin | now apply Hi].
Qed.



(** * Weights and similarities of a loaded matrix *)

Section LoadedNumbers.
Local Open Scope R_scope.

Lemma Q2R_Qc_of_Z (z : Z) : Q2R (Qc_of_Z z) = IZR z.
Proof.
  unfold Qc_of_Z. cbn [this Q2Qc].
  rewrite (Qeq_eqR _ _ (Qred_correct _)).
  unfold Q2R, inject_Z. simpl. field.
Qed.

Lemma Qcle_Rle (x y : Qc) : (x <= y)%Qc <-> Q2R x <= Q2R y.
Proof. split; [apply Qle_Rle | apply Rle_Qle]. Qed.

Lemma weights_explicit (d : list Row) :
  normalized_rows (values (counts_of d))
  = map (fun u => map (fun c => weight d u c) (columns (counts_of d)))
        (index (counts_of d)).
Proof.
  unfold normalized_rows, counts_of at 1, Pd.pivot_table.
  cbn [values]. rewrite map_map. apply map_ext. intros u.
  rewrite map_map. apply map_ext. intros c. reflexivity.
Qed.

Lemma groups_of_rating (d : list Row) :
  Forall (fun r : string * string * Z => snd r = 1%Z)
    (Pd.groups (user_restaurant_pairs (map referrer d)) (map shop_name d)).
Proof. apply groups_rating, pairs_rating. Qed.

Lemma weight_range (d : list Row) (u c : string) :
  In u (index (counts_of d)) -> In c (columns (counts_of d)) ->
  (0 <= weight d u c)%Qc /\ (weight d u c <= 1)%Qc.
Proof.
  intros Hu Hc.
  pose proof (raw_counts_pos d u Hu) as Hs.
  pose proof (agg_sum_nonneg _ u c (groups_of_rating d)) as H0.
  assert (Hle : (Pd.agg_sum
                   (Pd.groups (user_restaurant_pairs (map referrer d))
                              (map shop_name d)) u c
                 <= Zsum (raw_counts d u))%Z).
  { apply Zsum_ge_member.
    - apply Forall_forall. intros x Hx. apply in_map_iff in Hx.
      destruct Hx as [c0 [<- _]]. apply agg_sum_nonneg, groups_of_rating.
    - unfold raw_counts. apply in_map_iff. exists c. now split. }
  unfold weight.
  set (x := Pd.agg_sum _ u c) in *. set (s := Zsum (raw_counts d u)) in *.
  assert (Hs0 : Qc_of_Z s <> 0%Qc) by (apply Qc_of_Z_nonzero; lia).
  rewrite !Qcle_Rle, Q2R_Qcdiv, !Q2R_Qc_of_Z, Q2R_Qc0, Q2R_Qc1
    by exact Hs0.
  apply IZR_le in H0, Hle. assert (Hs1 : 1 <= IZR s) by now apply IZR_le.
  split.
  - apply Rmult_le_pos; [exact H0|].
    apply Rlt_le, Rinv_0_lt_compat. lra.
  - apply Rmult_le_reg_r with (IZR s); [lra|].
    unfold Rdiv. rewrite Rmult_assoc, Rinv_l by lra. lra.
Qed.

Lemma weights_unit (d : list Row) :
  Forall (Forall (fun w => (0 <= w)%Qc /\ (w <= 1)%Qc))
         (normalized_rows (values (counts_of d))).
Proof.
  rewrite weights_explicit. apply Forall_forall. intros r Hr.
  apply in_map_iff in Hr. destruct Hr as [u [<- Hu]].
  apply Forall_forall. intros w Hw.
  apply in_map_iff in Hw. destruct Hw as [c [<- Hc]].
  now apply weight_range.
Qed.

Lemma normalize_map (X : list (list Qc)) :
  Sk.normalize X
  = map (fun x => mkScaled x (Sk.handle_zeros_in_scale (Sk.dot x x))) X.
Proof.
  unfold Sk.normalize, Sk.row_norms_squared.
  rewrite combine_map_self, map_map. reflexivity.
Qed.

Lemma gram_entry_cosine (X : list (list Qc)) (i j : nat) :
  entry (Sk.gram (Sk.normalize X)) i j
  = match nth_error X i, nth_error X j with
    | Some a, Some b => Some (cosine a b)
    | _, _ => None
    end.
Proof.
  rewrite gram_entry, normalize_map, !nth_error_map.
  destruct (nth_error X i), (nth_error X j); reflexivity.
Qed.

Lemma map_nth_error_seq {A B} (F : option A -> B) (l : list A) :
  map (fun j => F (nth_error l j)) (seq 0 (List.length l))
  = map (fun c => F (Some c)) l.
Proof.
  induction l as [|x l IH]; simpl; [reflexivity|].
  f_equal. rewrite <- seq_shift, map_map. exact IH.
Qed.

Lemma transpose_explicit {U C V} (f : U -> C -> V) (idx : list U)
  (cols : list C) :
  Pd.transpose (List.length cols)
    (map (fun u => map (fun c => f u c) cols) idx)
  = map (fun c => map (fun u => f u c) idx) cols.
Proof.
  unfold Pd.transpose.
  rewrite <- (map_nth_error_seq
                (fun o => match o with
                          | Some c => map (fun u => f u c) idx
                          | None => []
                          end) cols).
  apply map_ext. intros j. rewrite map_map.
  destruct (nth_error cols j) as [c|] eqn:E.
  - induction idx as [|u idx IH]; simpl; [reflexivity|].
    rewrite nth_error_map, E. simpl. now rewrite IH.
  - induction idx as [|u idx IH]; simpl; [reflexivity|].
    rewrite nth_error_map, E. simpl. exact IH.
Qed.

Lemma item_rows_explicit (d : list Row) :
  Pd.transpose (List.length (columns (counts_of d)))
    (normalized_rows (values (counts_of d)))
  = map (fun c => map (fun u => weight d u c) (index (counts_of d)))
        (columns (counts_of d)).
Proof. rewrite weights_explicit. apply transpose_explicit. Qed.

(** Vectors with a non-zero entry. *)

Lemma dotR_self_zero (a : list R) :
  dotR a a = 0 -> Forall (fun x => x = 0) a.
Proof.
  induction a as [|x a IH]; intros H; [constructor|].
  pose proof (dotR_self_nonneg a) as Ha.
  unfold dotR in *. simpl in H.
  constructor; [nra | apply IH; nra].
Qed.

Lemma nonzero_entry_norm (x : list Qc) (w : Qc) :
  In w x -> w <> 0%Qc -> normR (toR x) <> 0.
Proof.
  intros Hw Hne E. apply normR_zero, dotR_self_zero in E.
  rewrite Forall_forall in E. apply Hne, Q2R_Qc_eq0, E.
  unfold toR. apply in_map_iff. exists w. split; [reflexivity | exact Hw].
Qed.

Lemma weight_nonzero (d : list Row) (u c : string) (v : Z) :
  In (u, c, v)
     (Pd.groups (user_restaurant_pairs (map referrer d)) (map shop_name d)) ->
  In u (index (counts_of d)) /\ In c (columns (counts_of d))
  /\ weight d u c <> 0%Qc.
Proof.
  intros Hin.
  assert (Hu : In u (index (counts_of d))).
  { apply sort_strings_In, unique_In, in_map_iff. exists (u, c, v).
    now split. }
  assert (Hc : In c (columns (counts_of d))).
  { apply sort_strings_In, unique_In, in_map_iff. exists (u, c, v).
    now split. }
  split; [exact Hu|]. split; [exact Hc|].
  pose proof (agg_sum_pos _ _ _ _ (groups_of_rating d) Hin) as Hx.
  pose proof (raw_counts_pos d u Hu) as Hs.
  unfold weight. intros E.
  apply Qcmult_integral in E. destruct E as [E|E].
  - revert E. apply Qc_of_Z_nonzero. lia.
  - assert (Hs0 : Qc_of_Z (Zsum (raw_counts d u)) <> 0%Qc)
      by (apply Qc_of_Z_nonzero; lia).
    apply (Qcmult_inv_r _) in Hs0. rewrite E, Qcmult_0_r in Hs0.
    discriminate.
Qed.

Lemma user_row_norm (d : list Row) (x : list Qc) :
  In x (normalized_rows (values (counts_of d))) -> normR (toR x) <> 0.
Proof.
  rewrite weights_explicit. intros Hx.
  apply in_map_iff in Hx. destruct Hx as [u [<- Hu]].
  pose proof Hu as Hu'.
  apply (proj1 (sort_strings_In _ _)) in Hu'.
  apply (proj1 (unique_In _ _)) in Hu'. apply in_map_iff in Hu'.
  destruct Hu' as [[[u' c] v] [Eu Hin]]. simpl in Eu. subst u'.
  destruct (weight_nonzero d u c v Hin) as [_ [Hc Hw]].
  apply (nonzero_entry_norm _ (weight d u c)); [|exact Hw].
  apply in_map_iff. exists c. now split.
Qed.

Lemma item_row_norm (d : list Row) (x : list Qc) :
  In x (Pd.transpose (List.length (columns (counts_of d)))
          (normalized_rows (values (counts_of d)))) ->
  normR (toR x) <> 0.
Proof.
  rewrite item_rows_explicit. intros Hx.
  apply in_map_iff in Hx. destruct Hx as [c [<- Hc]].
  pose proof Hc as Hc'.
  apply (proj1 (sort_strings_In _ _)) in Hc'.
  apply (proj1 (unique_In _ _)) in Hc'. apply in_map_iff in Hc'.
  destruct Hc' as [[[u c'] v] [Ec Hin]]. simpl in Ec. subst c'.
  destruct (weight_nonzero d u c v Hin) as [Hu [_ Hw]].
  apply (nonzero_entry_norm _ (weight d u c)); [|exact Hw].
  apply in_map_iff. exists u. now split.
Qed.

End LoadedNumbers.


(** * Order of the neighbours *)

Section NeighbourOrder.
Local Open Scope R_scope.

Lemma StronglySorted_impl {A} (R R' : A -> A -> Prop) (l : list A) :
  (forall x y, R x y -> R' x y) ->
  StronglySorted R l -> StronglySorted R' l.
Proof.
  intros HR. induction 1 as [|x l Hl IH Hx]; constructor.
  - exact IH.
  - eapply Forall_impl; [|exact Hx]. intros y. apply HR.
Qed.

Lemma StronglySorted_snoc {A} (R : A -> A -> Prop) (l : list A) (x : A) :
  StronglySorted R l -> Forall (fun y => R y x) l ->
  StronglySorted R (l ++ [x]).
Proof.
  induction 1 as [|y l Hl IH Hy]; intros Hx; simpl.
  - constructor; constructor.
  - inversion Hx as [|? ? Hyx Hlx]; subst. constructor.
    + now apply IH.
    + apply Forall_app. split; [exact Hy|]. now constructor.
Qed.

Lemma StronglySorted_rev {A} (R : A -> A -> Prop) (l : list A) :
  StronglySorted R l -> StronglySorted (fun x y => R y x) (rev l).
Proof.
  induction 1 as [|x l Hl IH Hx]; simpl; [constructor|].
  apply StronglySorted_snoc; [exact IH|].
  apply Forall_forall. intros y Hy. apply in_rev in Hy.
  rewrite Forall_forall in Hx. now apply Hx.
Qed.

Lemma StronglySorted_skipn {A} (R : A -> A -> Prop) (n : nat) (l : list A) :
  StronglySorted R l -> StronglySorted R (skipn n l).
Proof.
  intros H. revert n. induction H as [|x l Hl IH Hx]; intros [|n]; simpl;
    try constructor; auto.
Qed.

Lemma StronglySorted_firstn {A} (R : A -> A -> Prop) (n : nat) (l : list A) :
  StronglySorted R l -> StronglySorted R (firstn n l).
Proof.
  intros H. revert n. induction H as [|x l Hl IH Hx]; intros [|n]; simpl;
    try constructor; auto.
  apply Forall_forall. intros y Hy. apply In_firstn in Hy.
  rewrite Forall_forall in Hx. now apply Hx.
Qed.

Lemma top_neighbours_descending (sims : list Surd) :
  Forall (fun s => (0 < rad s)%Qc) sims ->
  StronglySorted
    (fun p q => Surd2R (nth q sims (mkSurd 0%Qc 1%Qc))
                <= Surd2R (nth p sims (mkSurd 0%Qc 1%Qc)))
    (top_neighbours sims).
Proof.
  intros Hrad.
  assert (Hpos : forall p, (0 < rad (nth p sims (mkSurd 0%Qc 1%Qc)))%Qc).
  { intros p. destruct (nth_in_or_default p sims (mkSurd 0%Qc 1%Qc))
      as [Hin| ->].
    - rewrite Forall_forall in Hrad. now apply Hrad.
    - reflexivity. }
  unfold top_neighbours, Py.slice, Py.reversed.
  apply StronglySorted_firstn, StronglySorted_skipn.
  eapply StronglySorted_impl;
    [|apply StronglySorted_rev, (argsort_sorted sims)].
  intros p q H. cbv beta in H. now apply Surd_leb_spec in H.
Qed.

Lemma gram_row_rad (X : list (list Qc)) (row : list Surd) :
  In row (Sk.gram (Sk.normalize X)) ->
  Forall (fun s => (0 < rad s)%Qc) row.
Proof.
  unfold Sk.gram. rewrite normalize_map. intros H.
  apply in_map_iff in H. destruct H as [a [<- Ha]].
  apply in_map_iff in Ha. destruct Ha as [x [<- Hx]].
  apply Forall_forall. intros s Hs.
  apply in_map_iff in Hs. destruct Hs as [b [<- Hb]].
  apply in_map_iff in Hb. destruct Hb as [y [<- Hy]].
  apply (cosine_rad_pos x y).
Qed.

Lemma similar_items_descending (d : list Row) (restaurant : string)
  (ps : list nat) :
  similar_items (globals_of d) restaurant = Ok ps ->
  exists i sims,
    nth_error (columns (counts_of d)) i = Some restaurant
    /\ nth_error (item_similarity (globals_of d)) i = Some sims
    /\ StronglySorted
         (fun p q => Surd2R (nth q sims (mkSurd 0%Qc 1%Qc))
                     <= Surd2R (nth p sims (mkSurd 0%Qc 1%Qc))) ps.
Proof.
  intros E.
  destruct (in_dec string_dec restaurant (columns (counts_of d))) as [Hr|Hr].
  - destruct (similar_items_Ok d restaurant Hr) as [i [sims [Hi [Hs [_ E']]]]].
    rewrite E' in E. injection E as <-.
    exists i, sims. split; [exact Hi|]. split; [exact Hs|].
    apply top_neighbours_descending.
    apply (gram_row_rad
             (Pd.transpose (List.length (columns (counts_of d)))
                (normalized_rows (values (counts_of d)))) sims).
    apply (nth_error_In _ i). exact Hs.
  - exfalso. unfold similar_items, Pd.get_loc in E.
    change (columns (user_item_matrix (globals_of d)))
      with (columns (counts_of d)) in E.
    destruct (Py.find_index restaurant (columns (counts_of d))) as [i|] eqn:Ef;
      [|discriminate].
    apply Hr. clear -Ef. revert i Ef.
    induction (columns (counts_of d)) as [|y l IH]; intros i Ef;
      simpl in Ef; [discriminate|].
    destruct (String.eqb_spec restaurant y) as [->|Hne]; [now left|].
    right. destruct (Py.find_index restaurant l); [|discriminate].
    eapply IH. reflexivity.
Qed.

Lemma similar_users_descending (d : list Row) (user : string)
  (ps : list nat) :
  similar_users (globals_of d) user = Ok ps ->
  exists i sims,
    nth_error (index (counts_of d)) i = Some user
    /\ nth_error (user_similarity (globals_of d)) i = Some sims
    /\ StronglySorted
         (fun p q => Surd2R (nth q sims (mkSurd 0%Qc 1%Qc))
                     <= Surd2R (nth p sims (mkSurd 0%Qc 1%Qc))) ps.
Proof.
  intros E.
  destruct (in_dec string_dec user (index (counts_of d))) as [Hr|Hr].
  - destruct (similar_users_Ok d user Hr) as [i [sims [Hi [Hs [_ E']]]]].
    rewrite E' in E. injection E as <-.
    exists i, sims. split; [exact Hi|]. split; [exact Hs|].
    apply top_neighbours_descending.
    apply (gram_row_rad (normalized_rows (values (counts_of d))) sims).
    apply (nth_error_In _ i). exact Hs.
  - exfalso. unfold similar_users, Pd.get_loc in E.
    change (index (user_item_matrix (globals_of d)))
      with (index (counts_of d)) in E.
    destruct (Py.find_index user (index (counts_of d))) as [i|] eqn:Ef;
      [|discriminate].
    apply Hr. clear -Ef. revert i Ef.
    induction (index (counts_of d)) as [|y l IH]; intros i Ef;
      simpl in Ef; [discriminate|].
    destruct (String.eqb_spec user y) as [->|Hne]; [now left|].
    right. destruct (Py.find_index user l); [|discriminate].
    eapply IH. reflexivity.
Qed.

End NeighbourOrder.


Section DisjointReferrers.
Local Open Scope R_scope.

Lemma dot_disjoint {U} (f h : U -> Qc) (idx : list U) :
  (forall u, In u idx -> f u = 0%Qc \/ h u = 0%Qc) ->
  Sk.dot (map f idx) (map h idx) = 0%Qc.
Proof.
  unfold Sk.dot, Qcsum. induction idx as [|u idx IH]; intros H.
  - reflexivity.
  - cbn [map combine fold_right fst snd].
    rewrite IH by (intros; apply H; now right).
    destruct (H u (or_introl eq_refl)) as [E|E]; rewrite E; ring.
Qed.

Lemma item_similarity_disjoint (d : list Row) (i j : nat) (c1 c2 : string) :
  nth_error (columns (counts_of d)) i = Some c1 ->
  nth_error (columns (counts_of d)) j = Some c2 ->
  (forall u, In u (index (counts_of d)) ->
             weight d u c1 = 0%Qc \/ weight d u c2 = 0%Qc) ->
  exists s, entry (item_similarity (globals_of d)) i j = Some s
            /\ Surd2R s = 0.
Proof.
  intros H1 H2 Hdis.
  change (item_similarity (globals_of d))
    with (Sk.gram (Sk.normalize
                     (Pd.transpose (List.length (columns (counts_of d)))
                        (normalized_rows (values (counts_of d)))))).
  rewrite gram_entry_cosine, item_rows_explicit, !nth_error_map, H1, H2.
  cbn [option_map]. eexists. split; [reflexivity|].
  unfold cosine, Sk.scaled_dot, Surd2R. cbn [num rad coords scale2].
  rewrite (dot_disjoint _ _ _ Hdis), Q2R_Qc0.
  unfold Rdiv. apply Rmult_0_l.
Qed.

End DisjointReferrers.


(** * The loader *)

Lemma for_each_Return {A B} (f : A -> outcome B) (h : A -> B) (l : list A) :
  (forall a, In a l -> f a = Return (h a)) ->
  for_each f l = Return (map h l).
Proof.
  induction l as [|a l IH]; intros Hf; simpl.
  - reflexivity.
  - rewrite (Hf a (or_introl eq_refl)). unfold and_then at 1.
    rewrite IH by (intros; apply Hf; now right). reflexivity.
Qed.

Lemma for_each_Throw {A B} (f : A -> outcome B) (l : list A) (a : A)
  (e : py_error) :
  In a l -> f a = Throw e -> exists e', for_each f l = Throw e'.
Proof.
  induction l as [|b l IH]; intros Hin Hf; [contradiction|].
  simpl. destruct (f b) as [y|e0] eqn:Eb.
  - destruct Hin as [->|Hin]; [congruence|].
    destruct (IH Hin Hf) as [e' E']. exists e'.
    unfold and_then at 1. now rewrite E'.
  - exists e0. reflexivity.
Qed.

Lemma join_names (names : list string) :
  Js.join ", " (map JStr names) = Return (JStr (String.concat ", " names)).
Proof.
  unfold Js.join.
  rewrite (for_each_Return _ (fun x => match x with
                                       | JStr s => s
                                       | _ => EmptyString
                                       end)).
  - unfold and_then. rewrite map_map. cbn beta iota.
    now rewrite map_id.
  - intros a Ha. apply in_map_iff in Ha. destruct Ha as [s [<- _]].
    reflexivity.
Qed.

Lemma get_tags_multi_select (names : list string) :
  get_tags (JDict [("type", JStr "multi_select");
                   ("multi_select",
                    JList (map (fun t => option_name (Some t)) names))])
  = Return (JStr (String.concat ", " names)).
Proof.
  unfold get_tags. cbn [Js.contains Js.dict_get Js.item Js.iterate and_then].
  change (String.eqb "multi_select" "type") with false.
  change (String.eqb "multi_select" "multi_select") with true.
  cbv iota. cbn [Js.iterate and_then].
  rewrite (for_each_Return _ (fun tag => match Js.item tag "name" with
                                         | Return x => x
                                         | Throw _ => JNull
                                         end)).
  - unfold and_then at 1. rewrite map_map. cbn.
    apply join_names.
  - intros a Ha. apply in_map_iff in Ha. destruct Ha as [s [<- _]].
    reflexivity.
Qed.

Lemma first_plain_text_rich (props : list (string * json)) (key field : string)
  (other : list (string * json)) (fragments : list string) :
  Js.dict_get key props
  = Some (JDict (("type", JStr field) :: (field, rich_text fragments) :: other)) ->
  field <> "type" ->
  first_plain_text (JDict props) key field
  = Return (JStr (first_fragment fragments)).
Proof.
  intros Hk Hf. apply String.eqb_neq in Hf.
  unfold first_plain_text. cbn [Js.item and_then]. rewrite Hk.
  cbn [and_then Js.item Js.dict_get]. rewrite Hf, String.eqb_refl.
  cbn [and_then]. destruct fragments as [|s l]; reflexivity.
Qed.

Lemma item_of_page_of (p : PageContent) :
  item_of_page (page_of p) = Return (item_of_row (row_of_page p)).
Proof.
  destruct p as [title tgs u ref st].
  unfold page_of, notion_page, item_of_page, row_of_page, item_of_row.
  cbn [page_title page_tags page_url page_referrer page_station
       shop_name tags url referrer station].
  set (props := [("店名", _); ("タグ", _); ("URL", _); ("紹介者", _);
                 ("店舗最寄り駅", _)]).
  assert (E0 : Js.item (JDict [("object", JStr "page");
                               ("properties", JDict props)]) "properties"
               = Return (JDict props)) by reflexivity.
  rewrite E0. unfold and_then at 1.
  rewrite (first_plain_text_rich props "店名" "title" [] title)
    by (try reflexivity; discriminate).
  unfold and_then at 1.
  assert (E1 : Js.item (JDict props) "タグ"
               = Return (JDict [("type", JStr "multi_select");
                                ("multi_select",
                                 JList (map (fun t => option_name (Some t))
                                            tgs))])) by reflexivity.
  rewrite E1. unfold and_then at 1.
  rewrite get_tags_multi_select. unfold and_then at 1.
  rewrite (first_plain_text_rich props "紹介者" "rich_text" [] ref)
    by (try reflexivity; discriminate).
  destruct u as [u|], st as [st|]; try (destruct u as [|c u]); reflexivity.
Qed.

Lemma for_each_map_Return {A B C} (f : B -> outcome C) (g0 : A -> B)
  (h : A -> C) (l : list A) :
  (forall a, In a l -> f (g0 a) = Return (h a)) ->
  for_each f (map g0 l) = Return (map h l).
Proof.
  induction l as [|a l IH]; intros Hf; simpl.
  - reflexivity.
  - rewrite (Hf a (or_introl eq_refl)). unfold and_then at 1.
    rewrite IH by (intros; apply Hf; now right). reflexivity.
Qed.

Lemma get_notion_data_pages (ps : list PageContent) :
  get_notion_data (JDict [("results", JList (map page_of ps))])
  = Return (map item_of_row (map row_of_page ps)).
Proof.
  unfold get_notion_data.
  assert (E : Js.item (JDict [("results", JList (map page_of ps))]) "results"
              = Return (JList (map page_of ps))) by reflexivity.
  rewrite E. unfold and_then at 1. cbn [Js.iterate]. unfold and_then at 1.
  rewrite map_map. apply for_each_map_Return.
  intros p _. apply item_of_page_of.
Qed.

Lemma rows_of_items (rows : list Row) :
  map row_of_item (map item_of_row rows) = map Some rows.
Proof.
  rewrite map_map. apply map_ext. now intros [n t u r s].
Qed.

(** A page without one of the five properties. *)
Lemma item_of_page_missing (page : json) (props : list (string * json))
  (key : string) :
  Js.item page "properties" = Return (JDict props) ->
  In key property_keys ->
  Js.dict_get key props = None ->
  exists e, item_of_page page = Throw e.
Proof.
  intros Hp Hkey Hmiss. unfold item_of_page. rewrite Hp.
  unfold and_then at 1.
  assert (Hfirst : forall k f,
             Js.dict_get k props = None ->
             first_plain_text (JDict props) k f = Throw (Builtin KeyError)).
  { intros k f Hk. unfold first_plain_text. cbn [Js.item]. now rewrite Hk. }
  assert (Hitem : forall k,
             Js.dict_get k props = None ->
             Js.item (JDict props) k = Throw (Builtin KeyError)).
  { intros k Hk. cbn [Js.item]. now rewrite Hk. }
  destruct (first_plain_text (JDict props) "店名" "title") as [v1|e1] eqn:E1;
    [|eexists; reflexivity].
  unfold and_then at 1.
  destruct (Js.item (JDict props) "タグ") as [v2|e2] eqn:E2;
    [|eexists; reflexivity].
  unfold and_then at 1.
  destruct (get_tags v2) as [v3|e3]; [|eexists; reflexivity].
  unfold and_then at 1.
  destruct (Js.item (JDict props) "URL") as [v4|e4] eqn:E4;
    [|eexists; reflexivity].
  unfold and_then at 1.
  destruct (Js.item v4 "url") as [v5|e5]; [|eexists; reflexivity].
  unfold and_then at 1.
  destruct (if Js.truthy v5
            then url_property <~ Return v4 ;; Js.item url_property "url"
            else Return (JStr EmptyString)) as [v6|e6];
    [|eexists; reflexivity].
  unfold and_then at 1.
  destruct (first_plain_text (JDict props) "紹介者" "rich_text")
    as [v7|e7] eqn:E7; [|eexists; reflexivity].
  unfold and_then at 1.
  destruct (Js.item (JDict props) "店舗最寄り駅") as [v8|e8] eqn:E8;
    [|eexists; reflexivity].
  exfalso. unfold property_keys in Hkey.
  destruct Hkey as [<-|[<-|[<-|[<-|[<-|[]]]]]].
  - rewrite (Hfirst _ _ Hmiss) in E1. discriminate.
  - rewrite (Hitem _ Hmiss) in E2. discriminate.
  - rewrite (Hitem _ Hmiss) in E4. discriminate.
  - rewrite (Hfirst _ _ Hmiss) in E7. discriminate.
  - rewrite (Hitem _ Hmiss) in E8. discriminate.
Qed.

(** * Empty referrer fields *)











(** * Vectors of a loaded matrix *)

Section LoadedVectors.
Local Open Scope R_scope.

Lemma weight_positive (d : list Row) (u c : string) (v : Z) :
  In (u, c, v)
     (Pd.groups (user_restaurant_pairs (map referrer d)) (map shop_name d)) ->
  In u (index (counts_of d)) /\ In c (columns (counts_of d))
  /\ (0 < weight d u c)%Qc.
Proof.
  intros Hin. destruct (weight_nonzero d u c v Hin) as [Hu [Hc Hw]].
  split; [exact Hu|]. split; [exact Hc|].
  destruct (weight_range d u c Hu Hc) as [H0 _].
  destruct (Qcle_lt_or_eq _ _ H0) as [Hlt|E]; [exact Hlt|].
  now contradiction Hw.
Qed.

Lemma squared_norm_nonzero (x : list Qc) :
  normR (toR x) <> 0 -> Sk.dot x x <> 0%Qc.
Proof.
  intros H E. apply H, normR_zero. rewrite <- Q2R_dot, E. apply Q2R_Qc0.
Qed.

(** No user row of the matrix is zero. *)
Lemma user_rows_nonzero (d : list Row) :
  Forall (fun x => Exists (fun w => (0 < w)%Qc) x /\ Sk.dot x x <> 0%Qc)
         (normalized_rows (values (counts_of d))).
Proof.
  apply Forall_forall. intros x Hx. split.
  - rewrite weights_explicit in Hx.
    apply in_map_iff in Hx. destruct Hx as [u [<- Hu]].
    apply (proj1 (sort_strings_In _ _)) in Hu.
    apply (proj1 (unique_In _ _)) in Hu. apply in_map_iff in Hu.
    destruct Hu as [[[u' c] v] [Eu Hin]]. simpl in Eu. subst u'.
    destruct (weight_positive d u c v Hin) as [_ [Hc Hw]].
    apply Exists_exists. exists (weight d u c). split; [|exact Hw].
    apply in_map_iff. exists c. now split.
  - now apply squared_norm_nonzero, (user_row_norm d).
Qed.

(** No restaurant column of the matrix is zero. *)
Lemma item_rows_nonzero (d : list Row) :
  Forall (fun x => Exists (fun w => (0 < w)%Qc) x /\ Sk.dot x x <> 0%Qc)
         (Pd.transpose (List.length (columns (counts_of d)))
            (normalized_rows (values (counts_of d)))).
Proof.
  apply Forall_forall. intros x Hx. split.
  - rewrite item_rows_explicit in Hx.
    apply in_map_iff in Hx. destruct Hx as [c [<- Hc]].
    apply (proj1 (sort_strings_In _ _)) in Hc.
    apply (proj1 (unique_In _ _)) in Hc. apply in_map_iff in Hc.
    destruct Hc as [[[u c'] v] [Ec Hin]]. simpl in Ec. subst c'.
    destruct (weight_positive d u c v Hin) as [Hu [_ Hw]].
    apply Exists_exists. exists (weight d u c). split; [|exact Hw].
    apply in_map_iff. exists u. now split.
  - now apply squared_norm_nonzero, (item_row_norm d).
Qed.

Lemma dotR_overlap_pos (a b : list R) (k : nat) (x y : R) :
  Forall (fun v => 0 <= v) a -> Forall (fun v => 0 <= v) b ->
  nth_error a k = Some x -> nth_error b k = Some y ->
  0 < x -> 0 < y -> 0 < dotR a b.
Proof.
  intros Ha. revert b k.
  induction Ha as [|v a Hv Ha IH]; intros b k Hb Ex Ey Hx Hy.
  - destruct k; discriminate.
  - destruct Hb as [|w b Hw Hb]; [destruct k; discriminate|].
    unfold dotR. cbn [combine map fold_right fst snd].
    fold (dotR a b).
    destruct k as [|k]; cbn [nth_error] in Ex, Ey.
    + injection Ex as ->. injection Ey as ->.
      pose proof (dotR_nonneg a b Ha Hb). nra.
    + specialize (IH b k Hb Ex Ey Hx Hy). nra.
Qed.

Lemma Q2R_Qc_pos (w : Qc) : (0 <= w)%Qc -> w <> 0%Qc -> 0 < Q2R w.
Proof.
  intros H0 Hne.
  assert (H : 0 <= Q2R w) by (rewrite <- Q2R_Qc0; now apply Qle_Rle).
  destruct (Req_dec (Q2R w) 0) as [E|E]; [|lra].
  now apply Q2R_Qc_eq0 in E.
Qed.

(** Two vectors without negative entries that are both non-zero at
    some position have a positive similarity. *)
Lemma cosine_overlap_pos {U} (f h : U -> Qc) (idx : list U) (u : U) :
  (forall v, In v idx -> (0 <= f v)%Qc /\ (0 <= h v)%Qc) ->
  In u idx -> f u <> 0%Qc -> h u <> 0%Qc ->
  0 < Surd2R (cosine (map f idx) (map h idx)).
Proof.
  intros Hnn Hu Hf Hh.
  assert (Hd : 0 < Q2R (Sk.dot (map f idx) (map h idx))).
  { rewrite Q2R_dot. destruct (In_nth_error _ _ Hu) as [k Ek].
    apply (dotR_overlap_pos _ _ k (Q2R (f u)) (Q2R (h u))).
    - apply toR_nonneg, Forall_forall. intros w Hw.
      apply in_map_iff in Hw. destruct Hw as [v [<- Hv]]. apply Hnn, Hv.
    - apply toR_nonneg, Forall_forall. intros w Hw.
      apply in_map_iff in Hw. destruct Hw as [v [<- Hv]]. apply Hnn, Hv.
    - unfold toR. now rewrite !nth_error_map, Ek.
    - unfold toR. now rewrite !nth_error_map, Ek.
    - apply Q2R_Qc_pos; [apply Hnn, Hu | exact Hf].
    - apply Q2R_Qc_pos; [apply Hnn, Hu | exact Hh]. }
  pose proof (cosine_divisor_pos (map f idx) (map h idx)) as Hs.
  unfold Surd2R.
  change (num (cosine (map f idx) (map h idx)))
    with (Sk.dot (map f idx) (map h idx)).
  apply Rdiv_lt_0_compat; assumption.
Qed.

Lemma item_similarity_overlap (d : list Row) (i j : nat) (c1 c2 u : string) :
  nth_error (columns (counts_of d)) i = Some c1 ->
  nth_error (columns (counts_of d)) j = Some c2 ->
  In u (index (counts_of d)) ->
  weight d u c1 <> 0%Qc -> weight d u c2 <> 0%Qc ->
  exists s, entry (item_similarity (globals_of d)) i j = Some s
            /\ 0 < Surd2R s.
Proof.
  intros H1 H2 Hu Hw1 Hw2.
  change (item_similarity (globals_of d))
    with (Sk.gram (Sk.normalize
                     (Pd.transpose (List.length (columns (counts_of d)))
                        (normalized_rows (values (counts_of d)))))).
  rewrite gram_entry_cosine, item_rows_explicit, !nth_error_map, H1, H2.
  cbn [option_map]. eexists. split; [reflexivity|].
  apply (cosine_overlap_pos (fun v => weight d v c1) (fun v => weight d v c2)
           _ u); try assumption.
  intros v Hv. split.
  - exact (proj1 (weight_range d v c1 Hv (nth_error_In _ _ H1))).
  - exact (proj1 (weight_range d v c2 Hv (nth_error_In _ _ H2))).
Qed.

Lemma user_similarity_overlap (d : list Row) (i j : nat) (u1 u2 c : string) :
  nth_error (index (counts_of d)) i = Some u1 ->
  nth_error (index (counts_of d)) j = Some u2 ->
  In c (columns (counts_of d)) ->
  weight d u1 c <> 0%Qc -> weight d u2 c <> 0%Qc ->
  exists s, entry (user_similarity (globals_of d)) i j = Some s
            /\ 0 < Surd2R s.
Proof.
  intros H1 H2 Hc Hw1 Hw2.
  change (user_similarity (globals_of d))
    with (Sk.gram (Sk.normalize (normalized_rows (values (counts_of d))))).
  rewrite gram_entry_cosine, weights_explicit, !nth_error_map, H1, H2.
  cbn [option_map]. eexists. split; [reflexivity|].
  apply (cosine_overlap_pos (fun v => weight d u1 v) (fun v => weight d u2 v)
           _ c); try assumption.
  intros v Hv. split.
  - exact (proj1 (weight_range d u1 v (nth_error_In _ _ H1) Hv)).
  - exact (proj1 (weight_range d u2 v (nth_error_In _ _ H2) Hv)).
Qed.

End LoadedVectors.

(** * Further properties of the code *)

Lemma recommendations_in_columns (d : list Row) (s : string) (n : Z) :
  exists ru ri,
    user_based_recommendation (globals_of d) s n = Ok ru
    /\ item_based_recommendation (globals_of d) s n = Ok ri
    /\ incl ru (columns (counts_of d))
    /\ incl ri (columns (counts_of d)).
Proof.
  assert (Hu : exists ru,
             user_based_recommendation (globals_of d) s n = Ok ru
             /\ incl ru (columns (counts_of d))).
  { destruct (in_dec string_dec s (index (counts_of d))) as [Hu|Hu].
    - destruct (user_based_known d s n Hu) as [this [row [E [Hincl _]]]].
      eexists. split; [exact E|].
      intros x Hx. apply slice_to_In, difference_In in Hx.
      apply Hincl. exact (proj1 Hx).
    - exists []. split; [now apply user_based_unknown | intros x []]. }
  assert (Hi : exists ri,
             item_based_recommendation (globals_of d) s n = Ok ri
             /\ incl ri (columns (counts_of d))).
  { destruct (in_dec string_dec s (columns (counts_of d))) as [Hr|Hr].
    - destruct (item_based_known d s n Hr) as [sims [_ [Hlen E]]].
      eexists. split; [exact E|].
      intros x Hx. apply slice_to_In, in_map_iff in Hx.
      destruct Hx as [p [<- Hp]]. apply top_neighbours_bound in Hp.
      apply nth_In. lia.
    - exists []. split; [now apply item_based_unknown | intros x []]. }
  destruct Hu as [ru [Eu Hu]]. destruct Hi as [ri [Ei Hi]].
  exists ru, ri. now repeat split.
Qed.

Lemma display_never_fails (d : list Row) (g : Globals) (s : string) :
  load d = Ok g ->
  (exists recs infos,
      user_based_recommendation g s 3 = Ok recs
      /\ show_user_based g s = Ok infos
      /\ map shop_name infos = recs /\ incl infos d)
  /\ (exists recs infos,
         item_based_recommendation g s 3 = Ok recs
         /\ show_item_based g s = Ok infos
         /\ map shop_name infos = recs /\ incl infos d).
Proof.
  intros H.
  destruct (known_labels d g H) as [Hcols _].
  apply load_inv in H. destruct H as [_ ->].
  destruct (recommendations_in_columns d s 3) as [ru [ri [Eu [Ei [Hu Hi]]]]].
  split.
  - destruct (restaurant_infos_Ok d ru) as [infos [E [Hnm Hin]]].
    { intros x Hx. apply Hcols, Hu, Hx. }
    exists ru, infos. split; [exact Eu|].
    unfold show_user_based. rewrite Eu. unfold bind at 1.
    now repeat split.
  - destruct (restaurant_infos_Ok d ri) as [infos [E [Hnm Hin]]].
    { intros x Hx. apply Hcols, Hi, Hx. }
    exists ri, infos. split; [exact Ei|].
    unfold show_item_based. rewrite Ei. unfold bind at 1.
    now repeat split.
Qed.

(** X1.  The module body loads exactly when the table has a record: an
    empty table raises [KeyError] at line 61, any other table gives the
    globals. *)
Theorem X1_load_outcome (d : list Row) :
  (d = [] -> load d = Raise KeyError)
  /\ (d <> [] -> exists g, load d = Ok g /\ df g = d).
Proof. apply load_outcome. Qed.

(** X2.  The pairs that the pivot table counts are positional: the k-th
    referrer token of the whole table goes with the k-th restaurant
    name, whatever record the token came from, and the tokens beyond
    the number of records are not counted. *)
Theorem X2_pairs_are_positional (d : list Row) :
  Pd.groups (user_restaurant_pairs (map referrer d)) (map shop_name d)
  = map (fun un : string * string => (fst un, snd un, 1%Z))
        (combine (exploded_users d) (map shop_name d)).
Proof. apply groups_positional. Qed.

(** X3.  The labels of the matrix: the columns are the restaurant names
    of the table and the rows are the first [len(df)] referrer tokens,
    both made unique and sorted. *)
Theorem X3_matrix_labels (d : list Row) (g : Globals) :
  load d = Ok g ->
  columns (user_item_matrix g)
  = sort String.leb (Pd.unique (map shop_name d))
  /\ index (user_item_matrix g)
     = sort String.leb
         (Pd.unique (firstn (List.length d) (exploded_users d))).
Proof. apply matrix_labels. Qed.

Lemma X3_matrix_labels_witness :
  columns (user_item_matrix (globals_of scenario))
  = sort String.leb (Pd.unique (map shop_name scenario))
  /\ index (user_item_matrix (globals_of scenario))
     = sort String.leb
         (Pd.unique (firstn (List.length scenario) (exploded_users scenario))).
Proof.
  apply (X3_matrix_labels scenario (globals_of scenario)).
  vm_compute. reflexivity.
Defined.

(** X4.  Every restaurant of the table is a column of the matrix, so a
    restaurant chosen from [df['店名']] is never unknown to
    [item_based_recommendation]; and every user of the matrix is a
    token of some referrer field. *)
Theorem X4_known_labels (d : list Row) (g : Globals) :
  load d = Ok g ->
  (forall c, In c (columns (user_item_matrix g)) <-> In c (map shop_name d))
  /\ (forall u, In u (index (user_item_matrix g)) ->
                exists r, In r d /\ In u (Py.split ","%char (referrer r))).
Proof. apply known_labels. Qed.

Lemma X4_known_labels_witness :
  (forall c, In c (columns (user_item_matrix (globals_of scenario)))
             <-> In c (map shop_name scenario))
  /\ (forall u, In u (index (user_item_matrix (globals_of scenario))) ->
                exists r, In r scenario
                          /\ In u (Py.split ","%char (referrer r))).
Proof.
  apply (X4_known_labels scenario (globals_of scenario)).
  vm_compute. reflexivity.
Defined.

(** X5.  When no referrer field holds a comma the pivot table is the
    intended one: its cell for a user and a restaurant counts the
    records with that referrer and that name. *)
Theorem X5_single_referrer_counts (d : list Row) (u c : string) :
  Forall (fun r => no_comma (referrer r) = true) d ->
  Pd.agg_sum
    (Pd.groups (user_restaurant_pairs (map referrer d)) (map shop_name d))
    u c
  = Z.of_nat
      (List.length
         (filter (fun r => String.eqb (referrer r) u
                           && String.eqb (shop_name r) c) d)).
Proof. apply single_referrer_counts. Qed.

Lemma X5_single_referrer_counts_witness :
  Pd.agg_sum
    (Pd.groups (user_restaurant_pairs (map referrer singles))
               (map shop_name singles))
    "bob" "A"
  = Z.of_nat
      (List.length
         (filter (fun r => String.eqb (referrer r) "bob"
                           && String.eqb (shop_name r) "A") singles)).
Proof.
  apply (X5_single_referrer_counts singles "bob" "A").
  repeat constructor.
Defined.

(** X6.  The row labels and the column labels of the matrix are in
    ascending order and without duplicates. *)
Theorem X6_labels_sorted (d : list Row) (g : Globals) :
  load d = Ok g ->
  StronglySorted (fun a b => String.leb a b = true)
                 (index (user_item_matrix g))
  /\ NoDup (index (user_item_matrix g))
  /\ StronglySorted (fun a b => String.leb a b = true)
                    (columns (user_item_matrix g))
  /\ NoDup (columns (user_item_matrix g)).
Proof. apply labels_sorted. Qed.

Lemma X6_labels_sorted_witness :
  StronglySorted (fun a b => String.leb a b = true)
                 (index (user_item_matrix (globals_of scenario)))
  /\ NoDup (index (user_item_matrix (globals_of scenario)))
  /\ StronglySorted (fun a b => String.leb a b = true)
                    (columns (user_item_matrix (globals_of scenario)))
  /\ NoDup (columns (user_item_matrix (globals_of scenario))).
Proof.
  apply (X6_labels_sorted scenario (globals_of scenario)).
  vm_compute. reflexivity.
Defined.

(** X7.  The entry of the matrix for a user and a restaurant is the
    user's count for the restaurant divided by the user's total count,
    and lies between 0 and 1. *)
Theorem X7_weights_in_unit_interval (d : list Row) (g : Globals) :
  load d = Ok g ->
  values (user_item_matrix g)
  = map (fun u => map (fun c => weight d u c)
                      (columns (user_item_matrix g)))
        (index (user_item_matrix g))
  /\ Forall (Forall (fun w => (0 <= w)%Qc /\ (w <= 1)%Qc))
            (values (user_item_matrix g)).
Proof.
  intros H. apply load_inv in H. destruct H as [_ ->]. split.
  - apply weights_explicit.
  - apply weights_unit.
Qed.

Lemma X7_weights_in_unit_interval_witness :
  values (user_item_matrix (globals_of scenario))
  = map (fun u => map (fun c => weight scenario u c)
                      (columns (user_item_matrix (globals_of scenario))))
        (index (user_item_matrix (globals_of scenario)))
  /\ Forall (Forall (fun w => (0 <= w)%Qc /\ (w <= 1)%Qc))
            (values (user_item_matrix (globals_of scenario))).
Proof.
  apply (X7_weights_in_unit_interval scenario (globals_of scenario)).
  vm_compute. reflexivity.
Defined.

(** X8.  [user_based_recommendation] for a user of the matrix returns
    the first [n] restaurants, in the order of the column labels, among
    those without a positive weight in the user's row: the ranking by
    the similar users' mean weight is undone by [Index.difference],
    which sorts its result by label. *)
Theorem X8_user_based_in_label_order (d : list Row) (g : Globals)
  (user : string) (n : Z) :
  load d = Ok g ->
  In user (index (user_item_matrix g)) ->
  exists row,
    Pd.loc (user_item_matrix g) user = Ok row
    /\ user_based_recommendation g user n
       = Ok (Py.slice_to n
               (filter (fun c => negb (Py.mem c (map fst (filter positive row))))
                       (columns (user_item_matrix g)))).
Proof. apply user_based_in_label_order. Qed.

Lemma X8_user_based_in_label_order_witness :
  exists row,
    Pd.loc (user_item_matrix (globals_of scenario)) "bob" = Ok row
    /\ user_based_recommendation (globals_of scenario) "bob" 1
       = Ok (Py.slice_to 1
               (filter (fun c => negb (Py.mem c (map fst (filter positive row))))
                       (columns (user_item_matrix (globals_of scenario))))).
Proof.
  apply (X8_user_based_in_label_order scenario (globals_of scenario) "bob" 1).
  - vm_compute. reflexivity.
  - vm_compute. right. left. reflexivity.
Defined.

(** X9.  For a known restaurant and [n >= 0],
    [item_based_recommendation] returns exactly
    [min(n, 5, number of restaurants - 1)] names. *)
Theorem X9_item_based_count (d : list Row) (g : Globals)
  (restaurant : string) (n : Z) :
  load d = Ok g ->
  In restaurant (columns (user_item_matrix g)) ->
  (0 <= n)%Z ->
  exists recs,
    item_based_recommendation g restaurant n = Ok recs
    /\ List.length recs
       = Nat.min (Z.to_nat n)
           (Nat.min 5 (List.length (columns (user_item_matrix g)) - 1)).
Proof. apply item_based_count. Qed.

Lemma X9_item_based_count_witness :
  exists recs,
    item_based_recommendation (globals_of scenario) "A" 3 = Ok recs
    /\ List.length recs
       = Nat.min (Z.to_nat 3)
           (Nat.min 5
              (List.length (columns (user_item_matrix (globals_of scenario)))
               - 1)).
Proof.
  apply (X9_item_based_count scenario (globals_of scenario) "A" 3).
  - vm_compute. reflexivity.
  - vm_compute. left. reflexivity.
  - vm_compute. discriminate.
Defined.

(** X10.  Asking for more keeps what was returned for less: for
    [0 <= n <= m] the list returned for [n] is a prefix of the list
    returned for [m], for both recommenders and any string. *)
Theorem X10_recommendations_grow_with_n (d : list Row) (g : Globals)
  (s : string) (n m : Z) :
  load d = Ok g ->
  (0 <= n <= m)%Z ->
  (exists l rest,
      user_based_recommendation g s n = Ok l
      /\ user_based_recommendation g s m = Ok (l ++ rest))
  /\ (exists l rest,
         item_based_recommendation g s n = Ok l
         /\ item_based_recommendation g s m = Ok (l ++ rest)).
Proof. apply recommendations_grow_with_n. Qed.

Lemma X10_recommendations_grow_with_n_witness :
  (exists l rest,
      user_based_recommendation (globals_of scenario) "bob" 1 = Ok l
      /\ user_based_recommendation (globals_of scenario) "bob" 2
         = Ok (l ++ rest))
  /\ (exists l rest,
         item_based_recommendation (globals_of scenario) "bob" 1 = Ok l
         /\ item_based_recommendation (globals_of scenario) "bob" 2
            = Ok (l ++ rest)).
Proof.
  apply (X10_recommendations_grow_with_n scenario (globals_of scenario)
           "bob" 1 2).
  - vm_compute. reflexivity.
  - split; vm_compute; discriminate.
Defined.

(** X11.  For a user and a restaurant of the matrix, the similar users
    and the similar items are computed without error and are listed by
    non-increasing similarity to the queried row. *)
Theorem X11_neighbours_descending (d : list Row) (g : Globals)
  (user restaurant : string) :
  load d = Ok g ->
  In user (index (user_item_matrix g)) ->
  In restaurant (columns (user_item_matrix g)) ->
  (exists ps i sims,
      similar_users g user = Ok ps
      /\ nth_error (index (user_item_matrix g)) i = Some user
      /\ nth_error (user_similarity g) i = Some sims
      /\ StronglySorted
           (fun p q => (Surd2R (nth q sims (mkSurd 0%Qc 1%Qc))
                        <= Surd2R (nth p sims (mkSurd 0%Qc 1%Qc)))%R) ps)
  /\ (exists ps i sims,
         similar_items g restaurant = Ok ps
         /\ nth_error (columns (user_item_matrix g)) i = Some restaurant
         /\ nth_error (item_similarity g) i = Some sims
         /\ StronglySorted
              (fun p q => (Surd2R (nth q sims (mkSurd 0%Qc 1%Qc))
                           <= Surd2R (nth p sims (mkSurd 0%Qc 1%Qc)))%R) ps).
Proof.
  intros H Hu Hr. apply load_inv in H. destruct H as [_ ->]. split.
  - destruct (similar_users_Ok d user Hu) as [i0 [sims0 [_ [_ [_ E]]]]].
    destruct (similar_users_descending d user _ E) as [i [sims [Hi [Hs HS]]]].
    exists (top_neighbours sims0), i, sims. now repeat split.
  - destruct (similar_items_Ok d restaurant Hr) as [i0 [sims0 [_ [_ [_ E]]]]].
    destruct (similar_items_descending d restaurant _ E)
      as [i [sims [Hi [Hs HS]]]].
    exists (top_neighbours sims0), i, sims. now repeat split.
Qed.

Lemma X11_neighbours_descending_witness :
  (exists ps i sims,
      similar_users (globals_of scenario) "alice" = Ok ps
      /\ nth_error (index (user_item_matrix (globals_of scenario))) i
         = Some "alice"
      /\ nth_error (user_similarity (globals_of scenario)) i = Some sims
      /\ StronglySorted
           (fun p q => (Surd2R (nth q sims (mkSurd 0%Qc 1%Qc))
                        <= Surd2R (nth p sims (mkSurd 0%Qc 1%Qc)))%R) ps)
  /\ (exists ps i sims,
         similar_items (globals_of scenario) "A" = Ok ps
         /\ nth_error (columns (user_item_matrix (globals_of scenario))) i
            = Some "A"
         /\ nth_error (item_similarity (globals_of scenario)) i = Some sims
         /\ StronglySorted
              (fun p q => (Surd2R (nth q sims (mkSurd 0%Qc 1%Qc))
                           <= Surd2R (nth p sims (mkSurd 0%Qc 1%Qc)))%R) ps).
Proof.
  apply (X11_neighbours_descending scenario (globals_of scenario)
           "alice" "A").
  - vm_compute. reflexivity.
  - vm_compute. left. reflexivity.
  - vm_compute. left. reflexivity.
Defined.

(** X12.  Two restaurants with a common user, one who has a non-zero
    weight for both, have an item similarity greater than 0. *)
Theorem X12_shared_user_positive (d : list Row) (g : Globals) (i j : nat)
  (c1 c2 u : string) :
  load d = Ok g ->
  nth_error (columns (user_item_matrix g)) i = Some c1 ->
  nth_error (columns (user_item_matrix g)) j = Some c2 ->
  In u (index (user_item_matrix g)) ->
  weight d u c1 <> 0%Qc -> weight d u c2 <> 0%Qc ->
  exists s, entry (item_similarity g) i j = Some s /\ (0 < Surd2R s)%R.
Proof.
  intros H. apply load_inv in H. destruct H as [_ ->].
  apply item_similarity_overlap.
Qed.

Lemma X12_shared_user_positive_witness :
  exists s, entry (item_similarity (globals_of scenario)) 0 2 = Some s
            /\ (0 < Surd2R s)%R.
Proof.
  apply (X12_shared_user_positive scenario (globals_of scenario) 0 2
           "A" "C" "alice").
  - vm_compute. reflexivity.
  - reflexivity.
  - reflexivity.
  - vm_compute. left. reflexivity.
  - intros E. apply (f_equal this) in E. vm_compute in E. discriminate.
  - intros E. apply (f_equal this) in E. vm_compute in E. discriminate.
Defined.

(** X13.  No vector given to [cosine_similarity] is zero: every user
    row and every restaurant column of the matrix has a positive entry,
    and its squared norm is not 0. *)
Theorem X13_no_zero_vector (d : list Row) (g : Globals) :
  load d = Ok g ->
  Forall (fun x => Exists (fun w => (0 < w)%Qc) x /\ Sk.dot x x <> 0%Qc)
         (values (user_item_matrix g))
  /\ Forall (fun x => Exists (fun w => (0 < w)%Qc) x /\ Sk.dot x x <> 0%Qc)
            (Pd.transpose (List.length (columns (user_item_matrix g)))
               (values (user_item_matrix g))).
Proof.
  intros H. apply load_inv in H. destruct H as [_ ->]. split.
  - apply user_rows_nonzero.
  - apply item_rows_nonzero.
Qed.

Lemma X13_no_zero_vector_witness :
  Forall (fun x => Exists (fun w => (0 < w)%Qc) x /\ Sk.dot x x <> 0%Qc)
         (values (user_item_matrix (globals_of scenario)))
  /\ Forall (fun x => Exists (fun w => (0 < w)%Qc) x /\ Sk.dot x x <> 0%Qc)
            (Pd.transpose
               (List.length (columns (user_item_matrix (globals_of scenario))))
               (values (user_item_matrix (globals_of scenario)))).
Proof.
  apply (X13_no_zero_vector scenario (globals_of scenario)).
  vm_compute. reflexivity.
Defined.

(** X14.  Two restaurants such that no user has a non-zero weight for
    both have item similarity 0. *)
Theorem X14_disjoint_referrers (d : list Row) (g : Globals) (i j : nat)
  (c1 c2 : string) :
  load d = Ok g ->
  nth_error (columns (user_item_matrix g)) i = Some c1 ->
  nth_error (columns (user_item_matrix g)) j = Some c2 ->
  (forall u, In u (index (user_item_matrix g)) ->
             weight d u c1 = 0%Qc \/ weight d u c2 = 0%Qc) ->
  exists s, entry (item_similarity g) i j = Some s /\ Surd2R s = 0%R.
Proof.
  intros H. apply load_inv in H. destruct H as [_ ->].
  apply item_similarity_disjoint.
Qed.

Lemma X14_disjoint_referrers_witness :
  exists s, entry (item_similarity (globals_of scenario)) 0 1 = Some s
            /\ Surd2R s = 0%R.
Proof.
  apply (X14_disjoint_referrers scenario (globals_of scenario) 0 1 "A" "B").
  - vm_compute. reflexivity.
  - reflexivity.
  - reflexivity.
  - intros u Hu.
    assert (Hu' : u = "alice" \/ u = "bob").
    { vm_compute in Hu. intuition. }
    destruct Hu' as [-> | ->].
    + right. apply Qc_is_canon. reflexivity.
    + left. apply Qc_is_canon. reflexivity.
Defined.

(** X15.  The two button handlers never raise: every recommended name
    is a restaurant of the table, so its record is found, and the
    records shown are records of the table named as recommended. *)
Theorem X15_display_never_fails (d : list Row) (g : Globals) (s : string) :
  load d = Ok g ->
  (exists recs infos,
      user_based_recommendation g s 3 = Ok recs
      /\ show_user_based g s = Ok infos
      /\ map shop_name infos = recs /\ incl infos d)
  /\ (exists recs infos,
         item_based_recommendation g s 3 = Ok recs
         /\ show_item_based g s = Ok infos
         /\ map shop_name infos = recs /\ incl infos d).
Proof. apply display_never_fails. Qed.

Lemma X15_display_never_fails_witness :
  (exists recs infos,
      user_based_recommendation (globals_of scenario) "alice" 3 = Ok recs
      /\ show_user_based (globals_of scenario) "alice" = Ok infos
      /\ map shop_name infos = recs /\ incl infos scenario)
  /\ (exists recs infos,
         item_based_recommendation (globals_of scenario) "alice" 3 = Ok recs
         /\ show_item_based (globals_of scenario) "alice" = Ok infos
         /\ map shop_name infos = recs /\ incl infos scenario).
Proof.
  apply (X15_display_never_fails scenario (globals_of scenario) "alice").
  vm_compute. reflexivity.
Defined.

(** X16.  The loader makes one record of every page, in order: the
    first fragment of the title and of the referrer text (nothing of
    the later fragments), the tag names joined by [", "], and [""] for
    an absent URL or station.  When there is a page, the module then
    loads. *)
Theorem X16_loader_reads_pages (ps : list PageContent) :
  get_notion_data (JDict [("results", JList (map page_of ps))])
  = Return (map item_of_row (map row_of_page ps))
  /\ map row_of_item (map item_of_row (map row_of_page ps))
     = map Some (map row_of_page ps)
  /\ (ps <> [] -> exists g, load (map row_of_page ps) = Ok g).
Proof.
  split; [apply get_notion_data_pages|]. split; [apply rows_of_items|].
  intros Hps. exists (globals_of (map row_of_page ps)).
  apply load_Ok. destruct ps; [congruence | discriminate].
Qed.

(** X17.  A page without one of the five properties makes the whole
    load raise: no record of any page is returned. *)
Theorem X17_missing_property_fails (query : json) (pages : list json)
  (page : json) (props : list (string * json)) (key : string) :
  Js.item query "results" = Return (JList pages) ->
  In page pages ->
  Js.item page "properties" = Return (JDict props) ->
  In key property_keys ->
  Js.dict_get key props = None ->
  exists e, get_notion_data query = Throw e.
Proof.
  intros Hq Hin Hp Hkey Hmiss.
  destruct (item_of_page_missing page props key Hp Hkey Hmiss) as [e He].
  unfold get_notion_data. rewrite Hq. unfold and_then at 1.
  cbn [Js.iterate]. unfold and_then at 1.
  eapply for_each_Throw; eassumption.
Qed.

Lemma X17_missing_property_fails_witness :
  exists e,
    get_notion_data
      (JDict [("results",
               JList [page_of (mkPage ["A"] [] None ["alice"] None);
                      JDict [("properties", JDict [])]])])
    = Throw e.
Proof.
  apply (X17_missing_property_fails
           (JDict [("results",
                    JList [page_of (mkPage ["A"] [] None ["alice"] None);
                           JDict [("properties", JDict [])]])])
           [page_of (mkPage ["A"] [] None ["alice"] None);
            JDict [("properties", JDict [])]]
           (JDict [("properties", JDict [])]) [] "URL").
  - reflexivity.
  - right. left. reflexivity.
  - reflexivity.
  - vm_compute. right. right. left. reflexivity.
  - reflexivity.
Defined.
